(** * vineetkr-api: the User resource, its validation and its handlers

    A shallow embedding of the request pipeline of the repository:

    - [userController.js]: [getUsers], [createUser], [updateUser],
      [deleteUser];
    - [server.js]: the error handling middleware and the routing of the
      four user routes;
    - [validators/userValidator.js]: [createUserSchema] and
      [updateUserSchema], as the framework guide of the repository lists
      them;
    - [models/User.js]: [userSchema], as the framework guide lists it;
    - [config/database.js]: [connectDB] and the two connection events;
    - [server.js] again: the [cors] origins, [PORT] and [startServer].

    The three libraries the handlers are glue over (zod 3.22, mongoose 8,
    express 4) are modelled as far as the handlers use them; every such
    definition says which library behaviour it stands for. *)

From Stdlib Require Import String Ascii List ZArith QArith Bool Lia.
From Stdlib Require Import Permutation Sorted DecimalString NArith.
Import ListNotations.
Local Open Scope string_scope.
Local Open Scope Z_scope.

(** ** JavaScript strings

    A string is a sequence of UTF-16 code units; the embedding covers the
    code units below 256 ([ascii]).  [String.length] is then the [length]
    property.  Beyond these code units [toLowerCase] does what no
    function on [ascii] shows: it sends the Kelvin sign U+212A to [k],
    a letter of ASCII.  What is proved of [toLowerCase] is proved of the
    strings of the embedding; an address that the e-mail test of the
    schemas accepts is one of them, since the test lets through no code
    unit from 128 on. *)
Module JS.

Definition code (c : ascii) : nat := nat_of_ascii c.

Definition between (lo hi : nat) (c : ascii) : bool :=
  (Nat.leb lo (code c) && Nat.leb (code c) hi)%bool.

(** [String.prototype.toLowerCase] on one code unit: A-Z, and the Latin-1
    capitals U+00C0..U+00DE without the multiplication sign U+00D7, move
    up by 32. *)
Definition lowerChar (c : ascii) : ascii :=
  if (between 65 90 c
      || (between 192 222 c && negb (Nat.eqb (code c) 215)))%bool
  then ascii_of_nat (code c + 32)
  else c.

Fixpoint toLowerCase (s : string) : string :=
  match s with
  | EmptyString => EmptyString
  | String c r => String (lowerChar c) (toLowerCase r)
  end.

(** White space and line terminators of [String.prototype.trim] below 256:
    TAB, LF, VT, FF, CR, SPACE, NBSP. *)
Definition isSpace (c : ascii) : bool :=
  (between 9 13 c || Nat.eqb (code c) 32 || Nat.eqb (code c) 160)%bool.

Fixpoint trimStart (s : string) : string :=
  match s with
  | EmptyString => EmptyString
  | String c r => if isSpace c then trimStart r else s
  end.

(** [trimEnd] keeps a character when it is not white space or when
    something remains after it. *)
Fixpoint trimEnd (s : string) : string :=
  match s with
  | EmptyString => EmptyString
  | String c r =>
      match trimEnd r with
      | EmptyString => if isSpace c then EmptyString else String c EmptyString
      | r' => String c r'
      end
  end.

Definition trim (s : string) : string := trimEnd (trimStart s).

(** Truthiness of a string: only the empty string is falsy. *)
Definition truthy (s : string) : bool :=
  match s with EmptyString => false | _ => true end.

(** Two strings differ at most in letter case when [toLowerCase] sends
    them to the same string. *)
Definition sameUpToCase (a b : string) : Prop := toLowerCase a = toLowerCase b.

(** [hay.includes(needle)] *)
Fixpoint includes (hay needle : string) : bool :=
  (String.prefix needle hay
   || match hay with
      | EmptyString => false
      | String _ r => includes r needle
      end)%bool.

(** The double quote, for the messages that quote a value. *)
Definition dquote : string := String (ascii_of_nat 34) EmptyString.

Definition showZ (z : Z) : string := NilZero.string_of_int (Z.to_int z).

Definition isInteger (q : Q) : bool := Z.eqb (Z.modulo (Qnum q) (Zpos (Qden q))) 0.

(** [String(n)] for a number: exact on integers; a fraction is shown as
    numerator/denominator (the handlers only ever print integers). *)
Definition showNumber (q : Q) : string :=
  if isInteger q then showZ (Z.div (Qnum q) (Zpos (Qden q)))
  else showZ (Qnum q) ++ "/" ++ showZ (Zpos (Qden q)).

End JS.

(** ** JSON values, as [express.json()] leaves them in [req.body] *)
#[warnings="-register-all"]
Inductive json : Type :=
| JNull
| JBool (b : bool)
| JNum (q : Q)
| JStr (s : string)
| JArr (items : list json)
| JObj (props : list (string * json)).

(** Property read [obj[key]]: [None] is [undefined]. *)
Fixpoint getProp (key : string) (props : list (string * json)) : option json :=
  match props with
  | [] => None
  | (k, v) :: rest => if String.eqb k key then Some v else getProp key rest
  end.

(** ** zod, as far as [userValidator.js] uses it *)
Module Zod.

Record ZodIssue := mkIssue {
  code : string;
  path : list string;
  message : string
}.

(** The name zod gives to the type of a received value. *)
Definition parsedType (v : option json) : string :=
  match v with
  | None => "undefined"
  | Some JNull => "null"
  | Some (JBool _) => "boolean"
  | Some (JNum _) => "number"
  | Some (JStr _) => "string"
  | Some (JArr _) => "array"
  | Some (JObj _) => "object"
  end.

Definition invalidType (expected : string) (p : list string) (v : option json) : ZodIssue :=
  mkIssue "invalid_type" p
    (match v with
     | None => "Required"
     | _ => "Expected " ++ expected ++ ", received " ++ parsedType v
     end).

(** *** The e-mail test of [z.string().email()]

    zod 3.22.4 tests one regular expression, ignoring case.  It asks, in
    this order: no dot at the start; no two dots in a row; any number of
    characters of the class [A-Z0-9_+-\.] and then one of [A-Z0-9_+-]; an
    [@]; one or more labels, each an [A-Z0-9] followed by any number of
    [A-Z0-9\-] and closed by a dot; two or more [A-Z] up to the end.
    None of the classes holds [@] or a line terminator, so a match has one
    [@]; the part before it is the local part, the part after it a list of
    labels closed by dots and a final run of letters. *)
Definition isAlpha (c : ascii) : bool := (JS.between 65 90 c || JS.between 97 122 c)%bool.
Definition isDigit (c : ascii) : bool := JS.between 48 57 c.
Definition isAlnum (c : ascii) : bool := (isAlpha c || isDigit c)%bool.

(** [[A-Z0-9_+-\.]]: the range from [+] to [.] is U+002B..U+002E. *)
Definition localChar (c : ascii) : bool :=
  (isAlnum c || Ascii.eqb c "_" || JS.between 43 46 c)%bool.

(** [[A-Z0-9_+-]] *)
Definition localLast (c : ascii) : bool :=
  (isAlnum c || Ascii.eqb c "_" || Ascii.eqb c "+" || Ascii.eqb c "-")%bool.

(** [[A-Z0-9\-]] *)
Definition labelChar (c : ascii) : bool := (isAlnum c || Ascii.eqb c "-")%bool.

(** Pieces of [s] between the occurrences of [sep]; always at least one
    piece. *)
Fixpoint splitOn (sep : ascii) (s : list ascii) : list (list ascii) :=
  match s with
  | [] => [[]]
  | c :: r =>
      if Ascii.eqb c sep then [] :: splitOn sep r
      else match splitOn sep r with
           | [] => [[c]]
           | p :: ps => (c :: p) :: ps
           end
  end.

Fixpoint hasDotDot (s : list ascii) : bool :=
  match s with
  | c :: ((d :: _) as r) => (Ascii.eqb c "." && Ascii.eqb d ".") || hasDotDot r
  | _ => false
  end.

Definition isLabel (l : list ascii) : bool :=
  match l with
  | [] => false
  | c :: r => (isAlnum c && forallb labelChar r)%bool
  end.

Definition isTld (l : list ascii) : bool :=
  (Nat.leb 2 (List.length l) && forallb isAlpha l)%bool.

(** The domain, on its pieces between dots: one or more labels, then the
    final letters. *)
Definition isDomain (d : list ascii) : bool :=
  match rev (splitOn "." d) with
  | tld :: ((_ :: _) as labels) => (isTld tld && forallb isLabel labels)%bool
  | _ => false
  end.

(** The local part: characters of [localChar], the last one of
    [localLast]. *)
Definition isLocal (l : list ascii) : bool :=
  match rev l with
  | [] => false
  | c :: r => (localLast c && forallb localChar r)%bool
  end.

Definition isEmail (s : string) : bool :=
  let cs := list_ascii_of_string s in
  (negb (match cs with c :: _ => Ascii.eqb c "." | [] => false end)
   && negb (hasDotDot cs)
   && match splitOn "@" cs with
      | [l; d] => isLocal l && isDomain d
      | _ => false
      end)%bool.

(** *** Schemas

    A string schema and a number schema are their lists of checks, in the
    order the source chains them; [optional] says whether [undefined] is
    accepted. *)
Inductive StringCheck :=
| CkMin (n : nat) (msg : string)
| CkMax (n : nat) (msg : string)
| CkEmail (msg : string).

Inductive NumberCheck :=
| CkInt (msg : string)
| CkNMin (v : Q) (msg : string)
| CkNMax (v : Q) (msg : string).

Record ZodString := { s_checks : list StringCheck; s_optional : bool }.
Record ZodNumber := { n_checks : list NumberCheck; n_optional : bool }.

Definition z_string : ZodString := {| s_checks := []; s_optional := false |}.
Definition z_number : ZodNumber := {| n_checks := []; n_optional := false |}.

Definition addS (c : StringCheck) (z : ZodString) : ZodString :=
  {| s_checks := (s_checks z ++ [c])%list; s_optional := s_optional z |}.
Definition addN (c : NumberCheck) (z : ZodNumber) : ZodNumber :=
  {| n_checks := (n_checks z ++ [c])%list; n_optional := n_optional z |}.

Definition min (n : nat) (msg : string) := addS (CkMin n msg).
Definition max (n : nat) (msg : string) := addS (CkMax n msg).
Definition email (msg : string) := addS (CkEmail msg).
Definition int (msg : string) := addN (CkInt msg).
Definition nmin (v : Q) (msg : string) := addN (CkNMin v msg).
Definition nmax (v : Q) (msg : string) := addN (CkNMax v msg).
Definition optionalS (z : ZodString) : ZodString :=
  {| s_checks := s_checks z; s_optional := true |}.
Definition optional (z : ZodNumber) : ZodNumber :=
  {| n_checks := n_checks z; n_optional := true |}.

(** One check on a string value; a failed check is one issue, and the
    checks after it still run. *)
Definition checkString (p : list string) (s : string) (c : StringCheck) : list ZodIssue :=
  match c with
  | CkMin n msg => if Nat.ltb (String.length s) n then [mkIssue "too_small" p msg] else []
  | CkMax n msg => if Nat.ltb n (String.length s) then [mkIssue "too_big" p msg] else []
  | CkEmail msg => if isEmail s then [] else [mkIssue "invalid_string" p msg]
  end.

Definition checkNumber (p : list string) (q : Q) (c : NumberCheck) : list ZodIssue :=
  match c with
  | CkInt msg => if JS.isInteger q then [] else [mkIssue "invalid_type" p msg]
  | CkNMin v msg => if Qle_bool v q then [] else [mkIssue "too_small" p msg]
  | CkNMax v msg => if Qle_bool q v then [] else [mkIssue "too_big" p msg]
  end.

(** Result of parsing one property: the issues, or the value ([None] is
    [undefined], which only an optional schema lets through). *)
Definition parseString (z : ZodString) (p : list string) (v : option json)
  : list ZodIssue + option string :=
  match v with
  | Some (JStr s) =>
      match flat_map (checkString p s) (s_checks z) with
      | [] => inr (Some s)
      | issues => inl issues
      end
  | None => if s_optional z then inr None else inl [invalidType "string" p v]
  | _ => inl [invalidType "string" p v]
  end.

Definition parseNumber (z : ZodNumber) (p : list string) (v : option json)
  : list ZodIssue + option Q :=
  match v with
  | Some (JNum q) =>
      match flat_map (checkNumber p q) (n_checks z) with
      | [] => inr (Some q)
      | issues => inl issues
      end
  | None => if n_optional z then inr None else inl [invalidType "number" p v]
  | _ => inl [invalidType "number" p v]
  end.

Definition issuesOf {A} (r : list ZodIssue + A) : list ZodIssue :=
  match r with inl issues => issues | inr _ => [] end.

(** [z.object({ name, email, age })]: the shape of the two user schemas. *)
Record ZodObject := {
  sh_name : ZodString;
  sh_email : ZodString;
  sh_age : ZodNumber
}.

(** What [parse] returns: the recognised properties only; [None] is a
    property that is not there. *)
Record UserData := {
  d_name : option string;
  d_email : option string;
  d_age : option Q
}.

(** [schema.partial()] *)
Definition partial (o : ZodObject) : ZodObject :=
  {| sh_name := optionalS (sh_name o);
     sh_email := optionalS (sh_email o);
     sh_age := optional (sh_age o) |}.

(** [schema.parse(body)]: [inl issues] is the thrown [ZodError].  Every
    property is parsed, so the issues of all of them are reported. *)
Definition parse (o : ZodObject) (body : json) : list ZodIssue + UserData :=
  match body with
  | JObj props =>
      let rn := parseString (sh_name o) ["name"] (getProp "name" props) in
      let re := parseString (sh_email o) ["email"] (getProp "email" props) in
      let ra := parseNumber (sh_age o) ["age"] (getProp "age" props) in
      match rn, re, ra with
      | inr n, inr e, inr a => inr {| d_name := n; d_email := e; d_age := a |}
      | _, _, _ => inl (issuesOf rn ++ issuesOf re ++ issuesOf ra)%list
      end
  | _ => inl [invalidType "object" [] (Some body)]
  end.

End Zod.

(** ** [validators/userValidator.js] *)
Notation "x |> f" := (f x) (at level 68, left associativity, only parsing).

Definition createUserSchema : Zod.ZodObject :=
  {| Zod.sh_name :=
       Zod.z_string
         |> Zod.min 2 "Name must be at least 2 characters"
         |> Zod.max 50 "Name must be less than 50 characters";
     Zod.sh_email :=
       Zod.z_string
         |> Zod.email "Invalid email format";
     Zod.sh_age :=
       Zod.z_number
         |> Zod.int "Age must be an integer"
         |> Zod.nmin 0 "Age cannot be negative"
         |> Zod.nmax 150 "Age seems unrealistic"
         |> Zod.optional |}.

(** Update User Schema (all fields optional) *)
Definition updateUserSchema : Zod.ZodObject := Zod.partial createUserSchema.

(** ** The store

    An [ObjectId] is the 96-bit number that its 24 hexadecimal digits
    write. *)
Definition ObjectId := N.

Definition hexDigit (c : ascii) : option N :=
  if JS.between 48 57 c then Some (N.of_nat (JS.code c - 48))
  else if JS.between 97 102 c then Some (N.of_nat (JS.code c - 87))
  else if JS.between 65 70 c then Some (N.of_nat (JS.code c - 55))
  else None.

Fixpoint hexValue (acc : N) (s : string) : option N :=
  match s with
  | EmptyString => Some acc
  | String c r =>
      match hexDigit c with
      | Some d => hexValue (16 * acc + d)%N r
      | None => None
      end
  end.

(** The cast of a string to an [ObjectId] (mongoose 8 with bson 6): a
    string of 24 hexadecimal digits, nothing else. *)
Definition castObjectId (s : string) : option ObjectId :=
  if Nat.eqb (String.length s) 24 then hexValue 0%N s else None.

(** A document of the [users] collection.  [createdAt] and [updatedAt] are
    the two fields that [timestamps: true] adds; times are milliseconds. *)
Record user := {
  _id : ObjectId;
  name : string;
  email : string;
  age : option Q;
  createdAt : Z;
  updatedAt : Z
}.

(** The calls made on the model, in the order they are made. *)
Inductive dbCall :=
| CallFind
| CallFindById
| CallFindOne
| CallCreate
| CallFindByIdAndUpdate
| CallFindByIdAndDelete.

(** What a request can see and change: the collection (in its natural
    order), the calls made on the model so far, and the lines written
    with [console.error]. *)
Record world := {
  users : list user;
  calls : list dbCall;
  console : list string
}.

(** What a request gets from outside: the clock, and the [ObjectId] the
    driver generates when a document is inserted. *)
Record context := {
  now : Z;
  newId : ObjectId
}.

(** An [Error] object: the properties the program reads. [e_status] is
    [None] when the error has no [status] property. *)
Record jserror := {
  e_name : string;
  e_message : string;
  e_stack : string;
  e_status : option Z
}.

(** ** Computations that read and change the world and may throw *)
Definition M (E A : Type) : Type := world -> (E + A) * world.

Definition ret {E A} (a : A) : M E A := fun w => (inr a, w).

Definition bind {E A B} (m : M E A) (k : A -> M E B) : M E B :=
  fun w =>
    match m w with
    | (inr a, w') => k a w'
    | (inl e, w') => (inl e, w')
    end.

Definition throw {E A} (e : E) : M E A := fun w => (inl e, w).

(** A value or a thrown error that is already there, as a computation. *)
Definition lift {E A} (r : E + A) : M E A := fun w => (r, w).

Definition mapError {E E' A} (f : E -> E') (m : M E A) : M E' A :=
  fun w =>
    match m w with
    | (inr a, w') => (inr a, w')
    | (inl e, w') => (inl (f e), w')
    end.

(** [try { body } catch (error) { handler }], where both end the request. *)
Definition tryCatch {E A} (body : M E A) (handler : E -> world -> A * world)
  : world -> A * world :=
  fun w =>
    match body w with
    | (inr a, w') => (a, w')
    | (inl e, w') => handler e w'
    end.

Notation "x <- m ;; k" := (bind m (fun x => k))
  (at level 100, m at next level, right associativity).
Notation "m ;;; k" := (bind m (fun _ => k))
  (at level 100, right associativity).

Definition withUsers (us : list user) (w : world) : world :=
  {| users := us; calls := calls w; console := console w |}.
Definition logged (c : dbCall) (w : world) : world :=
  {| users := users w; calls := (calls w ++ [c])%list; console := console w |}.

Definition getWorld {E} : M E world := fun w => (inr w, w).
Definition setUsers {E} (us : list user) : M E unit := fun w => (inr tt, withUsers us w).
Definition called {E} (c : dbCall) : M E unit := fun w => (inr tt, logged c w).
Definition consoleError (line : string) (w : world) : world :=
  {| users := users w; calls := calls w; console := (console w ++ [line])%list |}.

(** ** mongoose, as far as [models/User.js] and the controller use it

    The store of this module always answers.  An error of the driver
    (no connection, a time-out) is thrown by the same calls and takes
    the same way to [next] as the errors below: [Faulty], further down,
    puts every call under such rejections. *)
Module Mongoose.

(** The options of a string path.  [unique] asks the store for a unique
    index and is no validator; the index is not part of the embedding,
    and no write of the handlers would break it
    ([reachable_storeInvariant]). *)
Record SchemaString := {
  required : bool;
  trim : bool;
  lowercase : bool;
  unique : bool
}.

Record SchemaNumber := {
  min : option Q
}.

Record Schema := {
  p_name : SchemaString;
  p_email : SchemaString;
  p_age : SchemaNumber
}.

(** The setters of a string path run on a value that is saved, on a value
    of an update and on a value of a query filter alike. *)
Definition applySetters (p : SchemaString) (s : string) : string :=
  let s := if trim p then JS.trim s else s in
  if lowercase p then JS.toLowerCase s else s.

(** A failed validator: the path and the message. *)
Definition ValidatorError : Type := string * string.

(** The [required] validator of a string path fails on [undefined] and on
    the empty string.  A path that is not required and has no value is
    read as the empty string, the record type having no other place for
    it; both string paths of the user schema are required. *)
Definition checkRequired (p : SchemaString) (path : string) (v : option string)
  : list ValidatorError :=
  match v with
  | Some (String _ _) => []
  | _ => if required p then [(path, "Path `" ++ path ++ "` is required.")] else []
  end.

Definition checkMin (p : SchemaNumber) (path : string) (v : option Q)
  : list ValidatorError :=
  match v, min p with
  | Some q, Some m =>
      if Qle_bool m q then []
      else [(path, "Path `" ++ path ++ "` (" ++ JS.showNumber q
                   ++ ") is less than minimum allowed value ("
                   ++ JS.showNumber m ++ ").")]
  | _, _ => []
  end.

Fixpoint joinErrors (errs : list ValidatorError) : string :=
  match errs with
  | [] => ""
  | [(p, m)] => p ++ ": " ++ m
  | (p, m) :: rest => p ++ ": " ++ m ++ ", " ++ joinErrors rest
  end.

(** The stack of an error starts with its name and message; the frames
    that follow are left out. *)
Definition mkError (nm msg : string) : jserror :=
  {| e_name := nm; e_message := msg; e_stack := nm ++ ": " ++ msg; e_status := None |}.

Definition ValidationError (prefix : string) (errs : list ValidatorError) : jserror :=
  mkError "ValidationError" (prefix ++ ": " ++ joinErrors errs).

Definition CastError (value path model : string) : jserror :=
  mkError "CastError"
    ("Cast to ObjectId failed for value " ++ JS.dquote ++ value ++ JS.dquote
     ++ " (type string) at path " ++ JS.dquote ++ path ++ JS.dquote
     ++ " for model " ++ JS.dquote ++ model ++ JS.dquote).

End Mongoose.

(** ** [models/User.js]

    The option [timestamps: true] of the schema is what gives [user] its
    [createdAt] and [updatedAt], which [User.create] and
    [User.findByIdAndUpdate] set. *)
Definition userSchema : Mongoose.Schema :=
  {| Mongoose.p_name :=
       {| Mongoose.required := true; Mongoose.trim := true;
          Mongoose.lowercase := false; Mongoose.unique := false |};
     Mongoose.p_email :=
       {| Mongoose.required := true; Mongoose.trim := false;
          Mongoose.lowercase := true; Mongoose.unique := true |};
     Mongoose.p_age := {| Mongoose.min := Some 0%Q |} |}.

(** The model [User = mongoose.model('User', userSchema)]. *)
Module User.

Import Mongoose.

Definition hasId (o : ObjectId) (u : user) : bool := N.eqb (_id u) o.

Definition castId (id : string) : M jserror ObjectId :=
  match castObjectId id with
  | Some o => ret o
  | None => throw (CastError id "_id" "User")
  end.

(** [User.find().sort({ createdAt: -1 })].  The store may order
    documents of equal [createdAt] as it likes; the embedding sorts by
    insertion into a list that is already in descending order. *)
Fixpoint insertDesc (u : user) (sorted : list user) : list user :=
  match sorted with
  | [] => [u]
  | v :: rest =>
      if Z.leb (createdAt v) (createdAt u) then u :: sorted
      else v :: insertDesc u rest
  end.

Definition sortByCreatedAtDesc (us : list user) : list user :=
  fold_right insertDesc [] us.

Definition findSortedByCreatedAtDesc : M jserror (list user) :=
  called CallFind ;;;
  w <- getWorld ;;
  ret (sortByCreatedAtDesc (users w)).

(** [User.findById(id)] *)
Definition findById (id : string) : M jserror (option user) :=
  called CallFindById ;;;
  o <- castId id ;;
  w <- getWorld ;;
  ret (find (hasId o) (users w)).

(** The filters the controller passes to [findOne]:
    [{ email }] and [{ email, _id: { $ne: id } }].  [f_email] is the value
    given for [email] ([None] for [undefined], which the driver sends as
    [null] and which no document of the collection matches). *)
Record filter := {
  f_email : option string;
  f_id_ne : option string
}.

Definition matches (e : string) (excluded : option ObjectId) (u : user) : bool :=
  (String.eqb (email u) e
   && match excluded with
      | Some o => negb (hasId o u)
      | None => true
      end)%bool.

(** [User.findOne(filter)]: the filter is cast by the schema first, which
    runs the setters of [email] on its value and casts the [$ne] operand
    to an [ObjectId]. *)
Definition findOne (f : filter) : M jserror (option user) :=
  called CallFindOne ;;;
  excluded <- match f_id_ne f with
              | Some id => o <- castId id ;; ret (Some o)
              | None => ret None
              end ;;
  w <- getWorld ;;
  ret match f_email f with
      | Some e => find (matches (applySetters (p_email userSchema) e) excluded) (users w)
      | None => None
      end.

(** The values of a document or of an update after the setters. *)
Definition castData (data : Zod.UserData) : Zod.UserData :=
  {| Zod.d_name := option_map (applySetters (p_name userSchema)) (Zod.d_name data);
     Zod.d_email := option_map (applySetters (p_email userSchema)) (Zod.d_email data);
     Zod.d_age := Zod.d_age data |}.

Definition orEmpty (v : option string) : string :=
  match v with Some s => s | None => "" end.

(** [User.create(data)]: a new document is built from the data, every
    path is validated, and the document is inserted with a generated
    [_id] and both timestamps at the present time. *)
Definition create (ctx : context) (data : Zod.UserData) : M jserror user :=
  called CallCreate ;;;
  let d := castData data in
  match (checkRequired (p_name userSchema) "name" (Zod.d_name d)
         ++ checkRequired (p_email userSchema) "email" (Zod.d_email d)
         ++ checkMin (p_age userSchema) "age" (Zod.d_age d))%list with
  | [] =>
      let u := {| _id := newId ctx;
                  name := orEmpty (Zod.d_name d);
                  email := orEmpty (Zod.d_email d);
                  age := Zod.d_age d;
                  createdAt := now ctx;
                  updatedAt := now ctx |} in
      w <- getWorld ;;
      setUsers (users w ++ [u])%list ;;;
      ret u
  | errs => throw (ValidationError "User validation failed" errs)
  end.

Definition orElse {A} (v : option A) (old : A) : A :=
  match v with Some a => a | None => old end.

(** The document after [$set] of the given paths and of [updatedAt]. *)
Definition applyUpdate (ctx : context) (d : Zod.UserData) (u : user) : user :=
  {| _id := _id u;
     name := orElse (Zod.d_name d) (name u);
     email := orElse (Zod.d_email d) (email u);
     age := match Zod.d_age d with Some q => Some q | None => age u end;
     createdAt := createdAt u;
     updatedAt := now ctx |}.

(** Replaces the first document that has the identifier. *)
Fixpoint updateFirst (o : ObjectId) (f : user -> user) (us : list user) : list user :=
  match us with
  | [] => []
  | u :: rest => if hasId o u then f u :: rest else u :: updateFirst o f rest
  end.

(** Validators of an update run on the paths the update sets. *)
Definition updateValidators (d : Zod.UserData) : list ValidatorError :=
  ((match Zod.d_name d with
    | Some _ => checkRequired (p_name userSchema) "name" (Zod.d_name d)
    | None => []
    end)
   ++ (match Zod.d_email d with
       | Some _ => checkRequired (p_email userSchema) "email" (Zod.d_email d)
       | None => []
       end)
   ++ checkMin (p_age userSchema) "age" (Zod.d_age d))%list.

(** [User.findByIdAndUpdate(id, data, { new: true, runValidators: true })]:
    the updated document, or [None] when no document has the identifier. *)
Definition findByIdAndUpdate (ctx : context) (id : string) (data : Zod.UserData)
  : M jserror (option user) :=
  called CallFindByIdAndUpdate ;;;
  o <- castId id ;;
  let d := castData data in
  match updateValidators d with
  | [] =>
      w <- getWorld ;;
      match find (hasId o) (users w) with
      | Some u =>
          setUsers (updateFirst o (applyUpdate ctx d) (users w)) ;;;
          ret (Some (applyUpdate ctx d u))
      | None => ret None
      end
  | errs => throw (ValidationError "Validation failed" errs)
  end.

(** Removes the first document that has the identifier. *)
Fixpoint removeFirst (o : ObjectId) (us : list user) : list user :=
  match us with
  | [] => []
  | u :: rest => if hasId o u then rest else u :: removeFirst o rest
  end.

(** [User.findByIdAndDelete(id)] *)
Definition findByIdAndDelete (id : string) : M jserror (option user) :=
  called CallFindByIdAndDelete ;;;
  o <- castId id ;;
  w <- getWorld ;;
  match find (hasId o) (users w) with
  | Some u => setUsers (removeFirst o (users w)) ;;; ret (Some u)
  | None => ret None
  end.

End User.

(** ** Requests and responses (express) *)

(** [req.query.id] ([None] when the query has no [id]; a query that
    gives [id] once, as a string), [req.params.id] (the empty string on
    the routes without [:id]) and [req.body].

    The query parser of express also builds an object from
    [?id[$ne]=...] and an array from an [id] given twice, and [getUsers]
    hands either to [findById] as it is.  Such queries are not requests
    of this embedding: what is proved of a GET with an [id] is proved of
    an [id] that is one string. *)
Record request := {
  query_id : option string;
  params_id : string;
  req_body : json
}.

Inductive payload :=
| One (u : user)
| Many (us : list user).

(** The JSON document of a response; [None] is a property that is not in
    the document.  The documents the handlers build are named after
    their use: [failure] is [{ success: false, message }],
    [validationFailure] adds [errors], [succeeded] is
    [{ success: true, message, data: user }] and [listed] is
    [{ success: true, count: users.length, data: users }]. *)
Record envelope := {
  success : bool;
  message : option string;
  count : option nat;
  data : option payload;
  errors : option (list Zod.ZodIssue)
}.

Record response := {
  status : Z;
  body : envelope
}.

(** A handler either sends a response or hands an error to [next]. *)
Inductive outcome :=
| Sent (r : response)
| Next (error : jserror).

(** [res.status(code).json(doc)], and [res.json(doc)] with the status 200
    that express starts from. *)
Definition res_status_json (code : Z) (doc : envelope) : outcome :=
  Sent {| status := code; body := doc |}.
Definition res_json (doc : envelope) : outcome := res_status_json 200 doc.

Definition failure (msg : string) : envelope :=
  {| success := false; message := Some msg; count := None; data := None; errors := None |}.

Definition validationFailure (issues : list Zod.ZodIssue) : envelope :=
  {| success := false; message := Some "Validation error";
     count := None; data := None; errors := Some issues |}.

Definition listed (us : list user) : envelope :=
  {| success := true; message := None; count := Some (List.length us);
     data := Some (Many us); errors := None |}.

Definition succeeded (msg : option string) (u : user) : envelope :=
  {| success := true; message := msg; count := None; data := Some (One u); errors := None |}.

(** ** [controllers/userController.js] *)

(** What the [try] block of [createUser] and [updateUser] can throw: the
    [ZodError] of [parse], or an error of the model. *)
Inductive thrown :=
| ZodError (issues : list Zod.ZodIssue)
| Err (e : jserror).

Definition zodParse (schema : Zod.ZodObject) (b : json) : M thrown Zod.UserData :=
  lift (match Zod.parse schema b with
        | inl issues => inl (ZodError issues)
        | inr d => inr d
        end).

Definition await {A} (m : M jserror A) : M thrown A := mapError Err m.

(** The [catch] clause of [createUser] and [updateUser]: the test is on
    [error.name]; [error.errors] is the issue list of a [ZodError] and
    [undefined] on any other error. *)
Definition catchValidation (error : thrown) (w : world) : outcome * world :=
  match error with
  | ZodError issues =>
      (res_status_json 400 (validationFailure issues), w)
  | Err e =>
      if String.eqb (e_name e) "ZodError"
      then (res_status_json 400 (failure "Validation error"), w)
      else (Next e, w)
  end.

(** GET - Get all users or single user.  The test [if (id)] holds when
    the query has an [id] and it is not the empty string. *)
Definition getUsers (req : request) : world -> outcome * world :=
  tryCatch
    (match query_id req with
     | Some (String _ _ as id) =>
         user <- User.findById id ;;
         match user with
         | None => ret (res_status_json 404 (failure "User not found"))
         | Some u =>
             ret (res_json (succeeded None u))
         end
     | _ =>
         users <- User.findSortedByCreatedAtDesc ;;
         ret (res_json (listed users))
     end)
    (fun error w => (Next error, w)).

(** POST - Create a new user *)
Definition createUser (ctx : context) (req : request) : world -> outcome * world :=
  tryCatch
    (validatedData <- zodParse createUserSchema (req_body req) ;;
     existingUser <- await (User.findOne {| User.f_email := Zod.d_email validatedData;
                                            User.f_id_ne := None |}) ;;
     match existingUser with
     | Some _ =>
         ret (res_status_json 400 (failure "User with this email already exists"))
     | None =>
         user <- await (User.create ctx validatedData) ;;
         ret (res_status_json 201 (succeeded (Some "User created successfully") user))
     end)
    catchValidation.

(** PUT - Update an existing user.  The test [if (validatedData.email)]
    holds when the data has an [email] and it is not the empty string. *)
Definition updateUser (ctx : context) (req : request) : world -> outcome * world :=
  tryCatch
    (let id := params_id req in
     validatedData <- zodParse updateUserSchema (req_body req) ;;
     conflict <- match Zod.d_email validatedData with
                 | Some (String _ _) =>
                     existingUser <- await (User.findOne
                                              {| User.f_email := Zod.d_email validatedData;
                                                 User.f_id_ne := Some id |}) ;;
                     ret (match existingUser with Some _ => true | None => false end)
                 | _ => ret false
                 end ;;
     if (conflict : bool)
     then ret (res_status_json 400 (failure "Email already in use by another user"))
     else
       user <- await (User.findByIdAndUpdate ctx id validatedData) ;;
       match user with
       | None => ret (res_status_json 404 (failure "User not found"))
       | Some u =>
           ret (res_json (succeeded (Some "User updated successfully") u))
       end)
    catchValidation.

(** DELETE - Delete a user by ID *)
Definition deleteUser (req : request) : world -> outcome * world :=
  tryCatch
    (let id := params_id req in
     user <- User.findByIdAndDelete id ;;
     match user with
     | None => ret (res_status_json 404 (failure "User not found"))
     | Some u =>
         ret (res_json (succeeded (Some "User deleted successfully") u))
     end)
    (fun error w => (Next error, w)).

(** ** [server.js] *)

(** Error handling middleware *)
Definition errorHandler (err : jserror) (w : world) : response * world :=
  ({| status := match e_status err with
                | Some 0 | None => 500
                | Some s => s
                end;
      body := failure (if JS.truthy (e_message err) then e_message err
                       else "Internal Server Error") |},
   consoleError (e_stack err) w).

(** [routes/userRoutes.js] *)
Inductive route :=
| GET_users
| POST_users
| PUT_users_id
| DELETE_users_id.

Definition userRoutes (r : route) (ctx : context) : request -> world -> outcome * world :=
  match r with
  | GET_users => getUsers
  | POST_users => createUser ctx
  | PUT_users_id => updateUser ctx
  | DELETE_users_id => deleteUser
  end.

(** The application on a request of the user routes whose body the
    parsers of [server.js] let through: the handler, then the error
    handling middleware when the handler called [next(error)].  A body
    that a parser refuses goes to the same middleware without a handler
    being run; [Faulty.server], further down, has that path too. *)
Definition app (r : route) (ctx : context) (req : request) (w : world) : response * world :=
  match userRoutes r ctx req w with
  | (Sent res, w') => (res, w')
  | (Next error, w') => errorHandler error w'
  end.


(** ** Identifiers as the responses show them

    A document is sent as JSON with its [_id] written by
    [ObjectId.prototype.toHexString]: 24 hexadecimal digits in lower
    case, the most significant first. *)
Definition hexChar (d : N) : ascii :=
  if N.ltb d 10 then ascii_of_N (48 + d) else ascii_of_N (87 + d).

Fixpoint hexDigits (n : nat) (v : N) (rest : string) : string :=
  match n with
  | O => rest
  | S n' => hexDigits n' (N.div v 16) (String (hexChar (N.modulo v 16)) rest)
  end.

Definition toHexString (o : ObjectId) : string := hexDigits 24 o "".

(** ** [config/database.js] *)
Module Database.

(** The lines the module writes to the console, by the statement that
    writes them. *)
Inductive line :=
| UsingExistingConnection
| ConnectedSuccessfully
| ConnectionError (error : jserror)
| ConnectionURI (isSet : bool)
| Disconnected
| MongoDBError (error : jserror).

(** The module's variable [isConnected], the URIs that
    [mongoose.connect] was called with, and the console. *)
Record state := {
  isConnected : bool;
  dialled : list string;
  written : list line
}.

Definition initial : state :=
  {| isConnected := false; dialled := []; written := [] |}.

Definition write (l : line) (s : state) : state :=
  {| isConnected := isConnected s; dialled := dialled s;
     written := (written s ++ [l])%list |}.

Definition setConnected (b : bool) (s : state) : state :=
  {| isConnected := b; dialled := dialled s; written := written s |}.

Definition dial (uri : string) (s : state) : state :=
  {| isConnected := isConnected s; dialled := (dialled s ++ [uri])%list;
     written := written s |}.

(** [process.env.MONGODB_URI || 'mongodb://localhost:27017/vineetkr-db'];
    [None] is a variable that is not set. *)
Definition mongoURI (env : option string) : string :=
  match env with
  | Some (String _ _ as uri) => uri
  | _ => "mongodb://localhost:27017/vineetkr-db"
  end.

Definition isSet (env : option string) : bool :=
  match env with
  | Some uri => JS.truthy uri
  | None => false
  end.

(** [connectDB].  [rejection] is what [mongoose.connect] does when it is
    called: [None] when it resolves, the error when it rejects. *)
Definition connectDB (env : option string) (rejection : option jserror) (s : state)
  : (jserror + unit) * state :=
  if isConnected s
  then (inr tt, write UsingExistingConnection s)
  else
    let s1 := dial (mongoURI env) s in
    match rejection with
    | None => (inr tt, write ConnectedSuccessfully (setConnected true s1))
    | Some error =>
        (inl error, write (ConnectionURI (isSet env)) (write (ConnectionError error) s1))
    end.

(** [mongoose.connection.on('disconnected', ...)] and
    [mongoose.connection.on('error', ...)] *)
Definition onDisconnected (s : state) : state :=
  setConnected false (write Disconnected s).

Definition onError (error : jserror) (s : state) : state :=
  setConnected false (write (MongoDBError error) s).

(** What can happen to the module, one after the other: a call of
    [connectDB] (with the environment and with what [mongoose.connect]
    would do), or one of the two events. *)
Inductive step :=
| Call (env : option string) (rejection : option jserror)
| EventDisconnected
| EventError (error : jserror).

Definition after (st : step) (s : state) : state :=
  match st with
  | Call env rejection => snd (connectDB env rejection s)
  | EventDisconnected => onDisconnected s
  | EventError error => onError error s
  end.

Definition run (steps : list step) (s : state) : state :=
  fold_left (fun acc st => after st acc) steps s.

End Database.

(** ** [server.js]: the configuration and the start *)
Module Server.

(** [String.prototype.split] with a separator of one character. *)
Definition split (sep : ascii) (s : string) : list string :=
  map string_of_list_ascii (Zod.splitOn sep (list_ascii_of_string s)).

(** The [origin] option of [cors]: ['*'], or a list of origins. *)
Inductive origin :=
| AnyOrigin
| Origins (allowed : list string).

(** [process.env.ALLOWED_ORIGINS?.split(',') || '*']: an array is truthy
    whatever it holds, so the default is taken only when the variable is
    not set. *)
Definition corsOrigin (env : option string) : origin :=
  match env with
  | Some s => Origins (split "," s)
  | None => AnyOrigin
  end.



(** The lines [startServer] writes after those of [connectDB]. *)
Inductive line :=
| ServerIsRunning (port : string + Z)
| ApiDocumentation (port : string + Z)
| FailedToStartServer (error : jserror).



End Server.

(** ** The application with everything that can fail

    [app] above is the application on a request whose body was parsed
    and on a store that answers every call.  Two more things hand an
    error to the error middleware: the body parsers of [server.js]
    ([express.json()] and [express.urlencoded()]), which call
    [next(err)] with an error that has a [status] (400, 413, 415), and
    the driver of the store, whose rejection of an awaited call of the
    model is caught by the handler like any other error. *)
Module Faulty.

(** What the driver does to the calls of one request, by the call:
    [None] lets the call through; [Some (name, message)] rejects it
    with an error of that name and message.  The errors of the driver
    and of mongoose have no [status].  A request makes at most one call
    of each kind. *)
Definition faults : Type := dbCall -> option (string * string).

Definition noFaults : faults := fun _ => None.

Definition rejection (f : string * string) : jserror :=
  Mongoose.mkError (fst f) (snd f).

(** A call of the model under the faults.  What mongoose refuses itself
    (a cast, a validator) is thrown before the driver is asked; a call
    that the driver rejects is a call made that leaves the collection as
    it was. *)
Definition driver {A} (fs : faults) (c : dbCall) (op : M jserror A) : M jserror A :=
  fun w =>
    match op w with
    | (inl e, w') => (inl e, w')
    | (inr a, w') =>
        match fs c with
        | Some f => (inl (rejection f), logged c w)
        | None => (inr a, w')
        end
    end.

(** The four handlers of [userController.js], statement by statement as
    above, with every call of the model under the faults. *)
Definition getUsers (fs : faults) (req : request) : world -> outcome * world :=
  tryCatch
    (match query_id req with
     | Some (String _ _ as id) =>
         user <- driver fs CallFindById (User.findById id) ;;
         match user with
         | None => ret (res_status_json 404 (failure "User not found"))
         | Some u => ret (res_json (succeeded None u))
         end
     | _ =>
         users <- driver fs CallFind User.findSortedByCreatedAtDesc ;;
         ret (res_json (listed users))
     end)
    (fun error w => (Next error, w)).

Definition createUser (fs : faults) (ctx : context) (req : request)
  : world -> outcome * world :=
  tryCatch
    (validatedData <- zodParse createUserSchema (req_body req) ;;
     existingUser <- await (driver fs CallFindOne
                              (User.findOne {| User.f_email := Zod.d_email validatedData;
                                               User.f_id_ne := None |})) ;;
     match existingUser with
     | Some _ =>
         ret (res_status_json 400 (failure "User with this email already exists"))
     | None =>
         user <- await (driver fs CallCreate (User.create ctx validatedData)) ;;
         ret (res_status_json 201 (succeeded (Some "User created successfully") user))
     end)
    catchValidation.

Definition updateUser (fs : faults) (ctx : context) (req : request)
  : world -> outcome * world :=
  tryCatch
    (let id := params_id req in
     validatedData <- zodParse updateUserSchema (req_body req) ;;
     conflict <- match Zod.d_email validatedData with
                 | Some (String _ _) =>
                     existingUser <- await (driver fs CallFindOne
                                              (User.findOne
                                                 {| User.f_email := Zod.d_email validatedData;
                                                    User.f_id_ne := Some id |})) ;;
                     ret (match existingUser with Some _ => true | None => false end)
                 | _ => ret false
                 end ;;
     if (conflict : bool)
     then ret (res_status_json 400 (failure "Email already in use by another user"))
     else
       user <- await (driver fs CallFindByIdAndUpdate
                        (User.findByIdAndUpdate ctx id validatedData)) ;;
       match user with
       | None => ret (res_status_json 404 (failure "User not found"))
       | Some u => ret (res_json (succeeded (Some "User updated successfully") u))
       end)
    catchValidation.

Definition deleteUser (fs : faults) (req : request) : world -> outcome * world :=
  tryCatch
    (let id := params_id req in
     user <- driver fs CallFindByIdAndDelete (User.findByIdAndDelete id) ;;
     match user with
     | None => ret (res_status_json 404 (failure "User not found"))
     | Some u => ret (res_json (succeeded (Some "User deleted successfully") u))
     end)
    (fun error w => (Next error, w)).

Definition userRoutes (r : route) (ctx : context) (fs : faults)
  : request -> world -> outcome * world :=
  match r with
  | GET_users => getUsers fs
  | POST_users => createUser fs ctx
  | PUT_users_id => updateUser fs ctx
  | DELETE_users_id => deleteUser fs
  end.

(** The application of [server.js] on a request of the user routes.
    [bodyError] is the error that a body parser hands to [next] for this
    request, if any: the routes are then passed over, and [req_body] is
    not looked at. *)
Definition server (r : route) (ctx : context) (fs : faults)
           (bodyError : option jserror) (req : request) (w : world)
  : response * world :=
  match bodyError with
  | Some err => errorHandler err w
  | None =>
      match userRoutes r ctx fs req w with
      | (Sent res, w') => (res, w')
      | (Next error, w') => errorHandler error w'
      end
  end.

End Faulty.

(** * Vocabulary of the statements *)

(** Code units of ASCII. *)
Definition isAscii (c : ascii) : bool := Nat.ltb (JS.code c) 128.

(** A payload with the given name and age and a fixed e-mail address. *)
Definition samplePayload (n : string) (a : option Q) : json :=
  JObj (("name", JStr n) :: ("email", JStr "a@b.com")
        :: match a with Some q => [("age", JNum q)] | None => [] end).

Definition accepted (b : json) : bool :=
  match Zod.parse createUserSchema b with inr _ => true | inl _ => false end.

Definition chars (n : nat) : string := string_of_list_ascii (repeat "x"%char n).

(** The data model's invariants on a collection: every stored e-mail
    address is in lower case, and two documents with the same address are
    the same document. *)
Definition normalised (us : list user) : Prop :=
  forall u, In u us -> JS.toLowerCase (email u) = email u.

Definition emailsUnique (us : list user) : Prop :=
  forall u v, In u us -> In v us -> email u = email v -> _id u = _id v.

Definition storeInvariant (us : list user) : Prop :=
  normalised us /\ emailsUnique us.

(** No document holds the address. *)
Definition emailFree (e : string) (us : list user) : Prop :=
  forall v, In v us -> email v <> e.

(** No document other than the one with the identifier holds the address. *)
Definition emailFreeFor (o : ObjectId) (e : string) (us : list user) : Prop :=
  forall v, In v us -> email v = e -> _id v = o.

(** A name that [trim] leaves something of. *)
Definition notBlank (n : string) : Prop := JS.trim n <> "".

(** Newest first: the order of a list sorted by [createdAt] descending. *)
Definition newerFirst (a b : user) : Prop := createdAt b <= createdAt a.

(** Requests of the four routes. *)
Definition get (id : option string) : request :=
  {| query_id := id; params_id := ""; req_body := JObj [] |}.
Definition post (b : json) : request :=
  {| query_id := None; params_id := ""; req_body := b |}.
Definition put (id : string) (b : json) : request :=
  {| query_id := None; params_id := id; req_body := b |}.
Definition delete (id : string) : request :=
  {| query_id := None; params_id := id; req_body := JObj [] |}.

(** The scenario of the specification: Jo with the address "A@B.com". *)
Definition emptyWorld : world := {| users := []; calls := []; console := [] |}.
Definition ctx1 : context := {| now := 1000; newId := 1%N |}.
Definition ctx2 : context := {| now := 2000; newId := 2%N |}.
Definition jo : json :=
  JObj [("name", JStr "Jo"); ("email", JStr "A@B.com"); ("age", JNum 30)].
Definition joData : Zod.UserData :=
  {| Zod.d_name := Some "Jo"; Zod.d_email := Some "A@B.com"; Zod.d_age := Some 30%Q |}.
Definition joUser : user :=
  {| _id := 1%N; name := "Jo"; email := "a@b.com"; age := Some 30%Q;
     createdAt := 1000; updatedAt := 1000 |}.
Definition joId : string := "000000000000000000000001".
Definition worldWithJo : world := {| users := [joUser]; calls := []; console := [] |}.

(** A second User, Al. *)
Definition alUser : user :=
  {| _id := 2%N; name := "Al"; email := "al@b.com"; age := None;
     createdAt := 2000; updatedAt := 2000 |}.
Definition worldWithJoAndAl : world :=
  {| users := [joUser; alUser]; calls := []; console := [] |}.

(** The worlds the application can be in: the empty one, and the one any
    request of the user routes leaves. *)
Inductive reachable : world -> Prop :=
| reach_empty : reachable emptyWorld
| reach_request (r : route) (ctx : context) (req : request) (w : world) :
    reachable w -> reachable (snd (app r ctx req w)).

(** The world after the check of [updateUser] for another holder of the
    address: the check is made when the data has an address. *)
Definition afterCheck (d : Zod.UserData) (w : world) : world :=
  match Zod.d_email d with
  | Some (String _ _) => logged CallFindOne w
  | _ => w
  end.

(** No two documents of the collection have the same identifier. *)
Definition idsUnique (us : list user) : Prop := NoDup (map _id us).

(** What the handlers write into a document: a name of 1 to 50
    characters, an address of e-mail shape, and an age, if any, that is
    an integer from 0 to 150. *)
Definition fieldsValid (u : user) : Prop :=
  (1 <= String.length (name u) <= 50)%nat
  /\ Zod.isEmail (email u) = true
  /\ match age u with
     | Some q => exists z, q == inject_Z z /\ 0 <= z <= 150
     | None => True
     end.


(** What both schemas guarantee of the data they let through. *)
Definition dataBounded (d : Zod.UserData) : Prop :=
  (forall n, Zod.d_name d = Some n -> (2 <= String.length n <= 50)%nat)
  /\ (forall p, Zod.d_email d = Some p -> Zod.isEmail p = true)
  /\ (forall q, Zod.d_age d = Some q -> exists z, q == inject_Z z /\ 0 <= z <= 150).

(** A step that is a call of [connectDB], and not an event. *)
Definition isCall (st : Database.step) : Prop :=
  match st with
  | Database.Call _ _ => True
  | _ => False
  end.

(** The payload of the witness of the issues: a name too short, no
    address, an age that is neither an integer nor positive. *)
Definition badPayload : list (string * json) :=
  [("name", JStr "J"); ("age", JNum (-3 # 2))].

Definition badIssues : list Zod.ZodIssue :=
  [Zod.mkIssue "too_small" ["name"] "Name must be at least 2 characters";
   Zod.mkIssue "invalid_type" ["email"] "Required";
   Zod.mkIssue "invalid_type" ["age"] "Age must be an integer";
   Zod.mkIssue "too_small" ["age"] "Age cannot be negative"].

(** The path of an issue is the name of one property. *)
Definition about (key : string) (i : Zod.ZodIssue) : Prop := Zod.path i = [key].

(** Unfolds a handler down to the matches on what the model returns. *)
Ltac run :=
  unfold app, userRoutes, getUsers, createUser, updateUser, deleteUser,
    User.findById, User.findOne, User.create,
    User.findByIdAndUpdate, User.findByIdAndDelete,
    User.findSortedByCreatedAtDesc, User.castId, catchValidation,
    zodParse, await, tryCatch, mapError, bind, lift, ret, throw, getWorld,
    setUsers, called, res_json, res_status_json;
  cbn beta iota.

(** Case analysis on everything a handler looks at. *)
Ltac simp :=
  cbn beta iota;
  cbn [users calls console logged withUsers consoleError fst snd
       User.f_id_ne User.f_email e_name e_status Mongoose.ValidationError
       Mongoose.CastError Mongoose.mkError String.eqb Ascii.eqb Bool.eqb].




Ltac leaf :=
  cbn [status body success data errors failure validationFailure succeeded listed];
  first
    [ left; repeat split; solve [reflexivity | discriminate]
    | right; split; [reflexivity|]; split; [reflexivity|]; split; [reflexivity|];
      first
        [ left; split; [first [left; reflexivity | right; reflexivity] | reflexivity]
        | right; split; [reflexivity | eexists; reflexivity] ] ].

(** The same for the application with everything that can fail. *)
Ltac runF :=
  unfold Faulty.server, Faulty.userRoutes, Faulty.getUsers, Faulty.createUser,
    Faulty.updateUser, Faulty.deleteUser, Faulty.driver,
    User.findById, User.findOne, User.create,
    User.findByIdAndUpdate, User.findByIdAndDelete,
    User.findSortedByCreatedAtDesc, User.castId, catchValidation,
    zodParse, await, tryCatch, mapError, bind, lift, ret, throw, getWorld,
    setUsers, called, res_json, res_status_json;
  cbn beta iota.

Ltac simpF :=
  simp; cbn [Faulty.rejection Faulty.noFaults fst snd e_name e_status Mongoose.mkError].

Ltac casesF :=
  repeat (simpF;
          match goal with
          | |- context [Zod.parse ?s ?b] => destruct (Zod.parse s b) as [?|?]
          | |- context [query_id ?r] => destruct (query_id r) as [[|? ?]|]
          | |- context [match Zod.d_email ?d with _ => _ end] =>
              destruct (Zod.d_email d) as [[|? ?]|] eqn:?
          | |- context [castObjectId ?i] => destruct (castObjectId i)
          | |- context [match find ?f ?l with _ => _ end] => destruct (find f l)
          | |- context [match User.updateValidators ?d with _ => _ end] =>
              destruct (User.updateValidators d)
          | |- context [match (?l ++ ?m)%list with _ => _ end] =>
              destruct (l ++ m)%list
          | fs : Faulty.faults |- context [match ?f ?c with _ => _ end] =>
              constr_eq f fs; destruct (fs c) as [[? ?]|] eqn:?
          | |- context [String.eqb ?s "ZodError"] =>
              is_var s; destruct (String.eqb s "ZodError")
          end);
  simpF.

(** The error of a leaf that ends in [next] has no [status]. *)
Ltac failureLeaf :=
  intros E; inversion E; subst; cbn [e_status Mongoose.CastError Mongoose.ValidationError
                                      Mongoose.mkError Faulty.rejection];
  reflexivity.

(** * Properties *)

(** ** Strings *)

Lemma lowerChar_idempotent (c : ascii) : JS.lowerChar (JS.lowerChar c) = JS.lowerChar c.
Proof. destruct c as [[] [] [] [] [] [] [] []]; reflexivity. Qed.

Lemma toLowerCase_idempotent (s : string) :
  JS.toLowerCase (JS.toLowerCase s) = JS.toLowerCase s.
Proof.
  induction s as [|c r IH]; simpl; [reflexivity|].
  now rewrite lowerChar_idempotent, IH.
Qed.

Lemma toLowerCase_length (s : string) :
  String.length (JS.toLowerCase s) = String.length s.
Proof. induction s; simpl; congruence. Qed.

Lemma toLowerCase_nonempty (s : string) : s <> "" -> JS.toLowerCase s <> "".
Proof. destruct s; simpl; congruence. Qed.

(** ** The schemas *)

Lemma parseString_ok (z : Zod.ZodString) (p : list string) (v : option json)
      (r : option string) :
  Zod.parseString z p v = inr r ->
  (v = None /\ r = None /\ Zod.s_optional z = true)
  \/ (exists s, v = Some (JStr s) /\ r = Some s
                /\ flat_map (Zod.checkString p s) (Zod.s_checks z) = []).
Proof.
  unfold Zod.parseString. intros H.
  destruct v as [[| | |s| |]|]; try discriminate.
  - right. exists s.
    destruct (flat_map (Zod.checkString p s) (Zod.s_checks z)); [|discriminate].
    inversion H. auto.
  - left. destruct (Zod.s_optional z); [|discriminate]. inversion H. auto.
Qed.

Lemma parseNumber_ok (z : Zod.ZodNumber) (p : list string) (v : option json)
      (r : option Q) :
  Zod.parseNumber z p v = inr r ->
  (v = None /\ r = None /\ Zod.n_optional z = true)
  \/ (exists q, v = Some (JNum q) /\ r = Some q
                /\ flat_map (Zod.checkNumber p q) (Zod.n_checks z) = []).
Proof.
  unfold Zod.parseNumber. intros H.
  destruct v as [[| |q| | |]|]; try discriminate.
  - right. exists q.
    destruct (flat_map (Zod.checkNumber p q) (Zod.n_checks z)); [|discriminate].
    inversion H. auto.
  - left. destruct (Zod.n_optional z); [|discriminate]. inversion H. auto.
Qed.

(** A successful [parse] is a successful parse of each property. *)
Lemma parse_ok (o : Zod.ZodObject) (b : json) (d : Zod.UserData) :
  Zod.parse o b = inr d <->
  exists props,
    b = JObj props
    /\ Zod.parseString (Zod.sh_name o) ["name"] (getProp "name" props) = inr (Zod.d_name d)
    /\ Zod.parseString (Zod.sh_email o) ["email"] (getProp "email" props) = inr (Zod.d_email d)
    /\ Zod.parseNumber (Zod.sh_age o) ["age"] (getProp "age" props) = inr (Zod.d_age d).
Proof.
  split.
  - intros H. destruct b; try discriminate. exists props. split; [reflexivity|].
    unfold Zod.parse in H.
    destruct (Zod.parseString (Zod.sh_name o) _ _) as [? | n]; [discriminate|].
    destruct (Zod.parseString (Zod.sh_email o) _ _) as [? | e]; [discriminate|].
    destruct (Zod.parseNumber (Zod.sh_age o) _ _) as [? | a]; [discriminate|].
    inversion H. auto.
  - intros (props & -> & Hn & He & Ha). unfold Zod.parse.
    rewrite Hn, He, Ha. destruct d; reflexivity.
Qed.

(** A failed [parse] reports at least one issue. *)
Lemma parse_issues_nonempty (o : Zod.ZodObject) (b : json) (issues : list Zod.ZodIssue) :
  Zod.parse o b = inl issues -> issues <> [].
Proof.
  unfold Zod.parse. destruct b; try (intros H; inversion H; discriminate).
  assert (HS : forall z p v l, Zod.parseString z p v = inl l -> l <> []).
  { intros z p v l. unfold Zod.parseString.
    destruct v as [[| | |s| |]|]; try (intros H; inversion H; discriminate).
    - destruct (flat_map _ _); intros H; inversion H; discriminate.
    - destruct (Zod.s_optional z); intros H; inversion H; discriminate. }
  assert (HN : forall z p v l, Zod.parseNumber z p v = inl l -> l <> []).
  { intros z p v l. unfold Zod.parseNumber.
    destruct v as [[| |q| | |]|]; try (intros H; inversion H; discriminate).
    - destruct (flat_map _ _); intros H; inversion H; discriminate.
    - destruct (Zod.n_optional z); intros H; inversion H; discriminate. }
  destruct (Zod.parseString (Zod.sh_name o) _ _) as [ln | n] eqn:En;
    destruct (Zod.parseString (Zod.sh_email o) _ _) as [le | e] eqn:Ee;
    destruct (Zod.parseNumber (Zod.sh_age o) _ _) as [la | a] eqn:Ea;
    intros H; inversion H; subst; simpl;
    try (apply HS in En); try (apply HS in Ee); try (apply HN in Ea);
    try discriminate;
    try (destruct ln; [congruence|discriminate]);
    try (rewrite ?app_nil_r; assumption);
    try (destruct le; [congruence|discriminate]).
Qed.

(** The checks of the three properties of the create schema. *)
Lemma name_checks (p : list string) (s : string) :
  flat_map (Zod.checkString p s) (Zod.s_checks (Zod.sh_name createUserSchema)) = []
  <-> (2 <= String.length s <= 50)%nat.
Proof.
  change (Zod.s_checks (Zod.sh_name createUserSchema))
    with [Zod.CkMin 2 "Name must be at least 2 characters";
          Zod.CkMax 50 "Name must be less than 50 characters"].
  unfold flat_map, Zod.checkString.
  destruct (Nat.ltb_spec (String.length s) 2);
    destruct (Nat.ltb_spec 50 (String.length s)); split; intros H1;
    try discriminate; try lia; try reflexivity.
Qed.

Lemma email_checks (p : list string) (s : string) :
  flat_map (Zod.checkString p s) (Zod.s_checks (Zod.sh_email createUserSchema)) = []
  <-> Zod.isEmail s = true.
Proof.
  change (Zod.s_checks (Zod.sh_email createUserSchema))
    with [Zod.CkEmail "Invalid email format"].
  unfold flat_map, Zod.checkString.
  destruct (Zod.isEmail s); split; intros H; try discriminate; reflexivity.
Qed.

Lemma isInteger_spec (q : Q) : JS.isInteger q = true <-> exists z, q == inject_Z z.
Proof.
  unfold JS.isInteger. rewrite Z.eqb_eq. destruct q as [n d]. cbn [Qnum Qden].
  split.
  - intros H. exists (n / Zpos d). unfold Qeq. cbn.
    rewrite Z.mul_1_r. rewrite (Z.div_mod n (Zpos d)) at 1 by discriminate.
    rewrite H. lia.
  - intros [z Hz]. unfold Qeq in Hz. cbn in Hz. rewrite Z.mul_1_r in Hz.
    subst n. apply Z.mod_mul. discriminate.
Qed.

Lemma age_checks (p : list string) (q : Q) :
  flat_map (Zod.checkNumber p q) (Zod.n_checks (Zod.sh_age createUserSchema)) = []
  <-> exists z, q == inject_Z z /\ 0 <= z <= 150.
Proof.
  change (Zod.n_checks (Zod.sh_age createUserSchema))
    with [Zod.CkInt "Age must be an integer";
          Zod.CkNMin 0 "Age cannot be negative";
          Zod.CkNMax 150 "Age seems unrealistic"].
  unfold flat_map, Zod.checkNumber.
  destruct (JS.isInteger q) eqn:Hi.
  - apply isInteger_spec in Hi. destruct Hi as [z Hz].
    destruct (Qle_bool 0 q) eqn:H0; destruct (Qle_bool q 150) eqn:H1; split;
      try discriminate; try reflexivity.
    + intros _. exists z. split; [assumption|].
      apply Qle_bool_iff in H0, H1. rewrite Hz in H0, H1.
      change 0%Q with (inject_Z 0) in H0. change 150%Q with (inject_Z 150) in H1.
      rewrite <- Zle_Qle in H0, H1. lia.
    + intros (z' & Hz' & Hr). exfalso.
      assert (Qle_bool q 150 = true); [|congruence].
      apply Qle_bool_iff. rewrite Hz'. change 150%Q with (inject_Z 150).
      rewrite <- Zle_Qle. lia.
    + intros (z' & Hz' & Hr). exfalso.
      assert (Qle_bool 0 q = true); [|congruence].
      apply Qle_bool_iff. rewrite Hz'. change 0%Q with (inject_Z 0).
      rewrite <- Zle_Qle. lia.
    + intros (z' & Hz' & Hr). exfalso.
      assert (Qle_bool 0 q = true); [|congruence].
      apply Qle_bool_iff. rewrite Hz'. change 0%Q with (inject_Z 0).
      rewrite <- Zle_Qle. lia.
  - split.
    + destruct (Qle_bool 0 q); destruct (Qle_bool q 150); discriminate.
    + intros (z & Hz & _). exfalso.
      assert (JS.isInteger q = true); [|congruence].
      apply isInteger_spec. now exists z.
Qed.

Lemma parseString_accept (z : Zod.ZodString) (p : list string) (s : string) :
  flat_map (Zod.checkString p s) (Zod.s_checks z) = [] ->
  Zod.parseString z p (Some (JStr s)) = inr (Some s).
Proof. unfold Zod.parseString. now intros ->. Qed.

Lemma parseNumber_accept (z : Zod.ZodNumber) (p : list string) (q : Q) :
  flat_map (Zod.checkNumber p q) (Zod.n_checks z) = [] ->
  Zod.parseNumber z p (Some (JNum q)) = inr (Some q).
Proof. unfold Zod.parseNumber. now intros ->. Qed.

(** C5. The create schema accepts a payload exactly when it is an object
    whose [name] is a string of 2 to 50 characters (both bounds
    included), whose [email] is a string of e-mail shape, and whose [age]
    is either not there or an integer from 0 to 150 (both bounds
    included). *)
Theorem createUserSchema_accepts_exactly (b : json) :
  (exists d, Zod.parse createUserSchema b = inr d)
  <->
  exists props,
    b = JObj props
    /\ (exists s, getProp "name" props = Some (JStr s)
                  /\ (2 <= String.length s <= 50)%nat)
    /\ (exists e, getProp "email" props = Some (JStr e) /\ Zod.isEmail e = true)
    /\ (getProp "age" props = None
        \/ exists q z, getProp "age" props = Some (JNum q)
                       /\ q == inject_Z z /\ 0 <= z <= 150).
Proof.
  split.
  - intros [d H]. apply parse_ok in H. destruct H as (props & -> & Hn & He & Ha).
    exists props. split; [reflexivity|].
    apply parseString_ok in Hn, He. apply parseNumber_ok in Ha.
    destruct Hn as [(_ & _ & Hn) | (s & Hs & _ & Hn)]; [discriminate|].
    destruct He as [(_ & _ & He) | (e & Hes & _ & He)]; [discriminate|].
    apply name_checks in Hn. apply email_checks in He.
    split; [now exists s|]. split; [now exists e|].
    destruct Ha as [(Ha & _) | (q & Hq & _ & Ha)]; [now left|].
    right. apply age_checks in Ha. destruct Ha as (z & Hz & Hr).
    now exists q, z.
  - intros (props & -> & (s & Hs & Hl) & (e & He & Hm) & Ha).
    apply (name_checks ["name"]) in Hl. apply (email_checks ["email"]) in Hm.
    destruct Ha as [Ha | (q & z & Hq & Hz & Hr)].
    + exists {| Zod.d_name := Some s; Zod.d_email := Some e; Zod.d_age := None |}.
      apply parse_ok. exists props. cbn [Zod.d_name Zod.d_email Zod.d_age].
      rewrite Hs, He, Ha. repeat split; auto using parseString_accept.
    + exists {| Zod.d_name := Some s; Zod.d_email := Some e; Zod.d_age := Some q |}.
      apply parse_ok. exists props. cbn [Zod.d_name Zod.d_email Zod.d_age].
      rewrite Hs, He, Hq. repeat split; auto using parseString_accept.
      apply parseNumber_accept. apply age_checks. now exists z.
Qed.

(** The boundary cases of the two ranges, on concrete payloads. *)
Example name_length_boundaries :
  accepted (samplePayload (chars 1) None) = false
  /\ accepted (samplePayload (chars 2) None) = true
  /\ accepted (samplePayload (chars 50) None) = true
  /\ accepted (samplePayload (chars 51) None) = false.
Proof. repeat split; vm_compute; reflexivity. Qed.

Example age_boundaries :
  accepted (samplePayload "Jo" (Some (-1 # 1))) = false
  /\ accepted (samplePayload "Jo" (Some 0%Q)) = true
  /\ accepted (samplePayload "Jo" (Some 150%Q)) = true
  /\ accepted (samplePayload "Jo" (Some 151%Q)) = false
  /\ accepted (samplePayload "Jo" (Some (61 # 2))) = false.
Proof. repeat split; vm_compute; reflexivity. Qed.

(** ** The handlers *)

Lemma updateUser_rejects (ctx : context) (req : request) (w : world)
      (issues : list Zod.ZodIssue) :
  Zod.parse updateUserSchema (req_body req) = inl issues ->
  updateUser ctx req w = (res_status_json 400 (validationFailure issues), w).
Proof. intros H. run. rewrite H. reflexivity. Qed.

(** C8. A payload that fails the schema of its handler is answered with
    the validation envelope carrying the issues, and the world is the
    one before the request: the collection is unchanged, no call was made on
    the model and nothing was logged.  This holds for create and for
    update. *)
Theorem invalid_payload_touches_nothing
        (ctx : context) (req : request) (w : world) (issues : list Zod.ZodIssue) :
  (Zod.parse createUserSchema (req_body req) = inl issues ->
   app POST_users ctx req w
   = ({| status := 400; body := validationFailure issues |}, w))
  /\ (Zod.parse updateUserSchema (req_body req) = inl issues ->
      app PUT_users_id ctx req w
      = ({| status := 400; body := validationFailure issues |}, w)).
Proof.
  split; intros H; run; rewrite H; reflexivity.
Qed.

Lemma email_setter (e : string) :
  Mongoose.applySetters (Mongoose.p_email userSchema) e = JS.toLowerCase e.
Proof. reflexivity. Qed.

Lemma name_setter (n : string) :
  Mongoose.applySetters (Mongoose.p_name userSchema) n = JS.trim n.
Proof. reflexivity. Qed.

Lemma parse_name (o : Zod.ZodObject) props d v :
  Zod.parse o (JObj props) = inr d -> getProp "name" props = v ->
  Zod.d_name d = match v with Some (JStr s) => Some s | _ => None end.
Proof.
  intros H Hv. apply parse_ok in H. destruct H as (props' & E & Hn & _).
  inversion E; subst props'. rewrite Hv in Hn. apply parseString_ok in Hn.
  destruct Hn as [(-> & -> & _) | (s & -> & -> & _)]; reflexivity.
Qed.

Lemma parse_email (o : Zod.ZodObject) props d v :
  Zod.parse o (JObj props) = inr d -> getProp "email" props = v ->
  Zod.d_email d = match v with Some (JStr s) => Some s | _ => None end.
Proof.
  intros H Hv. apply parse_ok in H. destruct H as (props' & E & _ & He & _).
  inversion E; subst props'. rewrite Hv in He. apply parseString_ok in He.
  destruct He as [(-> & -> & _) | (s & -> & -> & _)]; reflexivity.
Qed.

Lemma parse_age (o : Zod.ZodObject) props d v :
  Zod.parse o (JObj props) = inr d -> getProp "age" props = v ->
  Zod.d_age d = match v with Some (JNum q) => Some q | _ => None end.
Proof.
  intros H Hv. apply parse_ok in H. destruct H as (props' & E & _ & _ & Ha).
  inversion E; subst props'. rewrite Hv in Ha. apply parseNumber_ok in Ha.
  destruct Ha as [(-> & -> & _) | (s & -> & -> & _)]; reflexivity.
Qed.

Lemma find_In {A} (f : A -> bool) (l : list A) (x : A) :
  In x l -> f x = true -> exists y, find f l = Some y.
Proof.
  intros Hin Hf. destruct (find f l) as [y|] eqn:E; [now exists y|].
  apply (find_none f l E) in Hin. congruence.
Qed.

(** C1 as stated fails: Jo is stored with the address in lower case, and
    a payload whose [email] is that address in other letter case, and
    which has no [name], is answered with the envelope of the validation
    error and not with the one of the conflict; the address was not
    looked up. *)
Lemma createUser_other_case_without_name_is_validation_error :
  let req := post (JObj [("email", JStr "A@B.com")]) in
  In joUser (users worldWithJo)
  /\ JS.toLowerCase (email joUser) = email joUser
  /\ JS.sameUpToCase "A@B.com" (email joUser)
  /\ message (body (fst (app POST_users ctx2 req worldWithJo))) = Some "Validation error"
  /\ errors (body (fst (app POST_users ctx2 req worldWithJo))) <> None
  /\ body (fst (app POST_users ctx2 req worldWithJo))
     <> failure "User with this email already exists"
  /\ snd (app POST_users ctx2 req worldWithJo) = worldWithJo.
Proof.
  cbv zeta. split; [left; reflexivity|]. repeat split; vm_compute; discriminate.
Qed.

(** C1, amended.  In a world where a User holds the lower-case address
    [email u], a create request whose payload passes the create schema
    and whose [email] differs from that address at most in letter case is
    answered with status 400 and the message of the conflict; the only
    thing the request leaves behind is the one [findOne] call, so the
    collection is the one before the request. *)
Theorem createUser_same_email_other_case_conflict
        (ctx : context) (req : request) (w : world) (u : user)
        (props : list (string * json)) (p : string) (d : Zod.UserData) :
  In u (users w) ->
  JS.toLowerCase (email u) = email u ->
  req_body req = JObj props ->
  getProp "email" props = Some (JStr p) ->
  JS.sameUpToCase p (email u) ->
  Zod.parse createUserSchema (req_body req) = inr d ->
  app POST_users ctx req w
  = ({| status := 400; body := failure "User with this email already exists" |},
     logged CallFindOne w)
  /\ users (snd (app POST_users ctx req w)) = users w.
Proof.
  intros Hin Hlow Hb He Hcase Hp.
  assert (Hd : Zod.d_email d = Some p).
  { rewrite Hb in Hp. now rewrite (@parse_email _ _ _ _ Hp He). }
  assert (Hf : exists v, find (User.matches (JS.toLowerCase p) None) (users (logged CallFindOne w))
                         = Some v).
  { apply find_In with (x := u); [exact Hin|].
    unfold User.matches. rewrite andb_true_r. apply String.eqb_eq.
    unfold JS.sameUpToCase in Hcase. congruence. }
  destruct Hf as [v Hv].
  assert (E : app POST_users ctx req w
              = ({| status := 400; body := failure "User with this email already exists" |},
                 logged CallFindOne w)).
  { run. rewrite Hb in *. rewrite Hp. cbn [User.f_id_ne User.f_email]. rewrite Hd, email_setter, Hv.
    reflexivity. }
  rewrite E. split; reflexivity.
Qed.

Lemma find_none_of {A} (f : A -> bool) (l : list A) :
  (forall x, In x l -> f x = false) -> find f l = None.
Proof.
  induction l as [|a l IH]; intros H; [reflexivity|]. simpl.
  rewrite (H a (or_introl eq_refl)). apply IH. intros x Hx. apply H. now right.
Qed.

Lemma isEmail_nonempty (p : string) : Zod.isEmail p = true -> p <> "".
Proof. intros H ->. discriminate. Qed.

(** What the create schema lets through satisfies the validators of the
    model for [email] and [age]. *)
Lemma create_data_valid props d :
  Zod.parse createUserSchema (JObj props) = inr d ->
  exists n p,
    Zod.d_name d = Some n /\ getProp "name" props = Some (JStr n)
    /\ Zod.d_email d = Some p /\ getProp "email" props = Some (JStr p)
    /\ Zod.isEmail p = true
    /\ Mongoose.checkMin (Mongoose.p_age userSchema) "age" (Zod.d_age d) = [].
Proof.
  intros H. apply parse_ok in H. destruct H as (props' & E & Hn & He & Ha).
  inversion E; subst props'.
  apply parseString_ok in Hn, He. apply parseNumber_ok in Ha.
  destruct Hn as [(_ & _ & Hn) | (n & Hgn & Hdn & _)]; [discriminate|].
  destruct He as [(_ & _ & He) | (p & Hgp & Hdp & He)]; [discriminate|].
  apply email_checks in He.
  exists n, p. repeat split; auto.
  destruct Ha as [(_ & -> & _) | (q & _ & -> & Ha)]; [reflexivity|].
  apply age_checks in Ha. destruct Ha as (z & Hz & Hr).
  unfold Mongoose.checkMin. cbn [Mongoose.min userSchema Mongoose.p_age].
  assert (Hq : Qle_bool 0 q = true).
  { apply Qle_bool_iff. rewrite Hz. change 0%Q with (inject_Z 0).
    rewrite <- Zle_Qle. lia. }
  now rewrite Hq.
Qed.

Lemma checkRequired_nonempty (p : Mongoose.SchemaString) (path s : string) :
  s <> "" -> Mongoose.checkRequired p path (Some s) = [].
Proof. destruct s; [congruence|reflexivity]. Qed.

(** C4, amended.  A payload that passes the create schema, whose address
    in lower case is held by no document and whose name is not blank, is
    answered with status 201 and the created document; the document is
    appended to the collection, and its [email] is the payload's address
    in lower case. *)
Theorem createUser_fresh_email_created
        (ctx : context) (req : request) (w : world)
        (props : list (string * json)) (n p : string) (d : Zod.UserData) :
  req_body req = JObj props ->
  Zod.parse createUserSchema (req_body req) = inr d ->
  getProp "name" props = Some (JStr n) ->
  getProp "email" props = Some (JStr p) ->
  emailFree (JS.toLowerCase p) (users w) ->
  notBlank n ->
  let u := {| _id := newId ctx; name := JS.trim n; email := JS.toLowerCase p;
              age := Zod.d_age d; createdAt := now ctx; updatedAt := now ctx |} in
  app POST_users ctx req w
  = ({| status := 201; body := succeeded (Some "User created successfully") u |},
     withUsers (users w ++ [u]) (logged CallCreate (logged CallFindOne w)))
  /\ email u = JS.toLowerCase p.
Proof.
  intros Hb Hp Hn He Hfree Hblank u. split; [|reflexivity].
  rewrite Hb in Hp.
  destruct (create_data_valid props d Hp) as (n' & p' & Hdn & Hgn & Hdp & Hgp & Hmail & Hmin).
  assert (n' = n) by congruence. assert (p' = p) by congruence. subst n' p'.
  assert (Hf : find (User.matches (JS.toLowerCase p) None) (users (logged CallFindOne w))
               = None).
  { apply find_none_of. intros v Hv. unfold User.matches. rewrite andb_true_r.
    apply String.eqb_neq. now apply Hfree. }
  run. rewrite Hb, Hp. cbn [User.f_id_ne User.f_email].
  rewrite Hdp, email_setter, Hf. unfold User.castData.
  cbn [Zod.d_name Zod.d_email Zod.d_age]. rewrite Hdn, Hdp. cbn [option_map].
  rewrite name_setter, email_setter, Hmin.
  rewrite (checkRequired_nonempty _ _ _ Hblank).
  rewrite checkRequired_nonempty
    by (apply toLowerCase_nonempty; now apply isEmail_nonempty).
  reflexivity.
Qed.

(** The scenario of C1: Jo is stored with the address in lower case, and
    the same payload is posted again. *)
Lemma createUser_same_email_other_case_conflict_witness :
  app POST_users ctx2 (post jo) worldWithJo
  = ({| status := 400; body := failure "User with this email already exists" |},
     logged CallFindOne worldWithJo)
  /\ users (snd (app POST_users ctx2 (post jo) worldWithJo)) = users worldWithJo.
Proof.
  apply (createUser_same_email_other_case_conflict ctx2 (post jo) worldWithJo joUser
           [("name", JStr "Jo"); ("email", JStr "A@B.com"); ("age", JNum 30)]
           "A@B.com" joData).
  - simpl. left. reflexivity.
  - reflexivity.
  - reflexivity.
  - reflexivity.
  - reflexivity.
  - reflexivity.
Defined.

(** C4 as stated fails where C1 applies: Jo's payload passes the create
    schema, and with Jo already stored it is answered 400, nothing being
    persisted. *)
Lemma createUser_valid_payload_taken_email_400 :
  Zod.parse createUserSchema jo = inr joData
  /\ fst (app POST_users ctx2 (post jo) worldWithJo)
     = {| status := 400; body := failure "User with this email already exists" |}
  /\ status (fst (app POST_users ctx2 (post jo) worldWithJo)) <> 201
  /\ users (snd (app POST_users ctx2 (post jo) worldWithJo)) = [joUser].
Proof. repeat split; try reflexivity. vm_compute. discriminate. Qed.

(** The first scenario of the specification: Jo is created in the empty
    collection and stored as "a@b.com". *)
Lemma createUser_fresh_email_created_witness :
  app POST_users ctx1 (post jo) emptyWorld
  = ({| status := 201; body := succeeded (Some "User created successfully") joUser |},
     withUsers (users emptyWorld ++ [joUser])
       (logged CallCreate (logged CallFindOne emptyWorld)))
  /\ email joUser = JS.toLowerCase "A@B.com".
Proof.
  apply (createUser_fresh_email_created ctx1 (post jo) emptyWorld
           [("name", JStr "Jo"); ("email", JStr "A@B.com"); ("age", JNum 30)]
           "Jo" "A@B.com" joData).
  - reflexivity.
  - reflexivity.
  - reflexivity.
  - reflexivity.
  - intros v Hv. simpl in Hv. destruct Hv.
  - unfold notBlank. vm_compute. discriminate.
Defined.

Lemma invalid_payload_touches_nothing_witness :
  app POST_users ctx2 (post (JObj [("email", JStr "A@B.com")])) worldWithJo
  = ({| status := 400;
        body := validationFailure [Zod.mkIssue "invalid_type" ["name"] "Required"] |},
     worldWithJo)
  /\ app PUT_users_id ctx2 (put joId (JObj [("age", JNum (-1 # 1))])) worldWithJo
     = ({| status := 400;
           body := validationFailure
                     [Zod.mkIssue "too_small" ["age"] "Age cannot be negative"] |},
        worldWithJo).
Proof.
  split.
  - apply (proj1 (invalid_payload_touches_nothing ctx2
                    (post (JObj [("email", JStr "A@B.com")])) worldWithJo
                    [Zod.mkIssue "invalid_type" ["name"] "Required"])).
    reflexivity.
  - apply (proj2 (invalid_payload_touches_nothing ctx2
                    (put joId (JObj [("age", JNum (-1 # 1))])) worldWithJo
                    [Zod.mkIssue "too_small" ["age"] "Age cannot be negative"])).
    reflexivity.
Defined.

(** ** Listing *)

Lemma insertDesc_perm (u : user) (l : list user) :
  Permutation (u :: l) (User.insertDesc u l).
Proof.
  induction l as [|v l IH]; simpl; [reflexivity|].
  destruct (Z.leb (createdAt v) (createdAt u)); [reflexivity|].
  rewrite perm_swap. now apply perm_skip.
Qed.

Lemma sortByCreatedAtDesc_perm (l : list user) :
  Permutation l (User.sortByCreatedAtDesc l).
Proof.
  induction l as [|u l IH]; simpl; [reflexivity|].
  rewrite <- insertDesc_perm. now apply perm_skip.
Qed.

Lemma insertDesc_sorted (u : user) (l : list user) :
  StronglySorted newerFirst l -> StronglySorted newerFirst (User.insertDesc u l).
Proof.
  induction 1 as [|v l Hs IH Hall]; simpl.
  - constructor; constructor.
  - destruct (Z.leb_spec (createdAt v) (createdAt u)) as [Hle | Hgt].
    + constructor; [now constructor|]. constructor; [exact Hle|].
      eapply Forall_impl; [|exact Hall]. unfold newerFirst. intros x Hx. lia.
    + constructor; [exact IH|].
      eapply Permutation_Forall; [apply insertDesc_perm|].
      constructor; [unfold newerFirst; lia | exact Hall].
Qed.

Lemma sortByCreatedAtDesc_sorted (l : list user) :
  StronglySorted newerFirst (User.sortByCreatedAtDesc l).
Proof.
  induction l as [|u l IH]; simpl; [constructor|]. now apply insertDesc_sorted.
Qed.

(** The list branch of [getUsers]. *)
Lemma getUsers_list_run (req : request) (w : world) :
  match query_id req with Some id => JS.truthy id | None => false end = false ->
  getUsers req w
  = (Sent {| status := 200; body := listed (User.sortByCreatedAtDesc (users w)) |},
     logged CallFind w).
Proof.
  intros H. run. destruct (query_id req) as [[|c id]|]; try discriminate; reflexivity.
Qed.

(** C9. Whatever the collection is, a list request is answered with
    status 200 and a success envelope whose [data] is every document of
    the collection, newest [createdAt] first, and whose [count] is the
    length of that sequence; the empty collection gives the empty
    sequence and count 0.  The collection is not changed. *)
Theorem getUsers_lists_all_newest_first
        (ctx : context) (pid : string) (b : json) (w : world) :
  exists l,
    app GET_users ctx {| query_id := None; params_id := pid; req_body := b |} w
    = ({| status := 200;
          body := {| success := true; message := None; count := Some (List.length l);
                     data := Some (Many l); errors := None |} |},
       logged CallFind w)
    /\ Permutation (users w) l
    /\ StronglySorted newerFirst l
    /\ (users w = [] -> l = [] /\ List.length l = 0%nat).
Proof.
  exists (User.sortByCreatedAtDesc (users w)).
  split; [|split; [|split]].
  - unfold app, userRoutes. now rewrite getUsers_list_run.
  - apply sortByCreatedAtDesc_perm.
  - apply sortByCreatedAtDesc_sorted.
  - intros ->. split; reflexivity.
Qed.

(** C10. A GET whose [id] is the empty string is answered exactly as a
    GET without [id]: with status 200 and the list envelope of the whole
    collection, and not with a look-up of one User. *)
Theorem getUsers_empty_id_lists_all
        (ctx : context) (pid : string) (b : json) (w : world) :
  app GET_users ctx {| query_id := Some ""; params_id := pid; req_body := b |} w
  = app GET_users ctx {| query_id := None; params_id := pid; req_body := b |} w
  /\ exists l,
       app GET_users ctx {| query_id := Some ""; params_id := pid; req_body := b |} w
       = ({| status := 200; body := listed l |}, logged CallFind w)
       /\ Permutation (users w) l.
Proof.
  unfold app, userRoutes. rewrite !getUsers_list_run by reflexivity.
  split; [reflexivity|].
  exists (User.sortByCreatedAtDesc (users w)). split; [reflexivity|].
  apply sortByCreatedAtDesc_perm.
Qed.

(** ** Identifiers *)

(** X23. An identifier that is well formed and that no document has is
    answered 404 with "User not found" by get-one and by delete; the
    one call made on the model is the look-up, and the collection is not
    changed. *)
Lemma absent_id_is_answered_404 (ctx : context) (id : string) (o : ObjectId) (w : world) :
  castObjectId id = Some o ->
  find (User.hasId o) (users w) = None ->
  app GET_users ctx (get (Some id)) w
  = ({| status := 404; body := failure "User not found" |}, logged CallFindById w)
  /\ app DELETE_users_id ctx (delete id) w
     = ({| status := 404; body := failure "User not found" |},
        logged CallFindByIdAndDelete w).
Proof.
  intros Hc Hf. split.
  - run. cbn [query_id get]. destruct id as [|c id]; [discriminate|].
    rewrite Hc. cbn [users logged]. now rewrite Hf.
  - run. cbn [params_id delete]. rewrite Hc. cbn [users logged]. now rewrite Hf.
Qed.

(** An identifier that is not well formed makes the model throw a
    [CastError], which the handler hands to [next]. *)
Lemma malformed_id_is_answered_500 (ctx : context) (id : string) (w : world) :
  castObjectId id = None ->
  id <> "" ->
  let err := Mongoose.CastError id "_id" "User" in
  app GET_users ctx (get (Some id)) w
  = ({| status := 500; body := failure (e_message err) |},
     consoleError (e_stack err) (logged CallFindById w))
  /\ app DELETE_users_id ctx (delete id) w
     = ({| status := 500; body := failure (e_message err) |},
        consoleError (e_stack err) (logged CallFindByIdAndDelete w)).
Proof.
  intros Hc Hne err. split.
  - run. cbn [query_id get]. destruct id as [|c id]; [congruence|].
    rewrite Hc. reflexivity.
  - run. cbn [params_id delete]. rewrite Hc. reflexivity.
Qed.

(** C2, on the code.  The identifier "bogus" is not well formed; get-one
    and delete answer it with status 500 and the message of the cast
    error, and not with the 404 envelope. *)
Theorem bogus_id_is_answered_500 (ctx : context) (w : world) :
  let err := Mongoose.CastError "bogus" "_id" "User" in
  app GET_users ctx (get (Some "bogus")) w
  = ({| status := 500; body := failure (e_message err) |},
     consoleError (e_stack err) (logged CallFindById w))
  /\ app DELETE_users_id ctx (delete "bogus") w
     = ({| status := 500; body := failure (e_message err) |},
        consoleError (e_stack err) (logged CallFindByIdAndDelete w))
  /\ fst (app GET_users ctx (get (Some "bogus")) w)
     <> {| status := 404; body := failure "User not found" |}.
Proof.
  intros err.
  destruct (malformed_id_is_answered_500 ctx "bogus" w eq_refl) as [Hg Hd];
    [discriminate|].
  split; [exact Hg|]. split; [exact Hd|]. rewrite Hg. discriminate.
Qed.

(** ** Errors that reach the middleware *)

(** C3 as stated fails: the cast error of the request for "bogus" has a
    message that names the value, the path and the model, and the
    response carries that very message. *)
Lemma error_message_reaches_the_caller :
  let err := Mongoose.CastError "bogus" "_id" "User" in
  let res := fst (app GET_users ctx1 (get (Some "bogus")) emptyWorld) in
  userRoutes GET_users ctx1 (get (Some "bogus")) emptyWorld
  = (Next err, logged CallFindById emptyWorld)
  /\ message (body res) = Some (e_message err)
  /\ JS.includes (e_message err) "Cast to ObjectId failed" = true
  /\ e_message err <> "Internal Server Error".
Proof. repeat split. vm_compute. discriminate. Qed.

(** No error that a handler hands to [next] has a [status]. *)
Lemma faulty_error_status (r : route) (ctx : context) (fs : Faulty.faults)
      (req : request) (w w1 : world) (err : jserror) :
  Faulty.userRoutes r ctx fs req w = (Next err, w1) -> e_status err = None.
Proof.
  destruct r; runF; casesF; try discriminate; failureLeaf.
Qed.

(** C3, amended.  When a handler hands an error to [next] (a cast or
    validation error of the model, or the driver's rejection of a call),
    the response has status 500 and the body [{ success: false, message }]
    whose message is the error's own message; "Internal Server Error"
    stands in only for an error that has no message.  The stack goes to
    the log and nowhere else: the envelope has the two properties only,
    and the collection and the calls made are those the handler left. *)
Theorem handler_failure_is_answered_500
        (r : route) (ctx : context) (fs : Faulty.faults) (req : request)
        (w w1 : world) (err : jserror) :
  Faulty.userRoutes r ctx fs req w = (Next err, w1) ->
  let res := fst (Faulty.server r ctx fs None req w) in
  let w2 := snd (Faulty.server r ctx fs None req w) in
  status res = 500
  /\ body res = failure (if JS.truthy (e_message err) then e_message err
                         else "Internal Server Error")
  /\ (e_message err <> "" -> message (body res) = Some (e_message err))
  /\ console w2 = (console w1 ++ [e_stack err])%list
  /\ users w2 = users w1
  /\ calls w2 = calls w1.
Proof.
  intros H. pose proof (faulty_error_status r ctx fs req w w1 err H) as Hs.
  unfold Faulty.server. rewrite H. unfold errorHandler. cbn [fst snd status body].
  rewrite Hs. repeat split. intros Hne. cbn [failure message].
  destruct (e_message err); [congruence|reflexivity].
Qed.

Lemma handler_failure_is_answered_500_witness :
  let err := Mongoose.CastError "bogus" "_id" "User" in
  let res := fst (Faulty.server GET_users ctx1 Faulty.noFaults None (get (Some "bogus"))
                    emptyWorld) in
  let w2 := snd (Faulty.server GET_users ctx1 Faulty.noFaults None (get (Some "bogus"))
                   emptyWorld) in
  status res = 500
  /\ body res = failure (e_message err)
  /\ (e_message err <> "" -> message (body res) = Some (e_message err))
  /\ console w2 = [e_stack err]
  /\ users w2 = []
  /\ calls w2 = [CallFindById].
Proof.
  apply (handler_failure_is_answered_500 GET_users ctx1 Faulty.noFaults
           (get (Some "bogus")) emptyWorld (logged CallFindById emptyWorld)
           (Mongoose.CastError "bogus" "_id" "User")).
  reflexivity.
Defined.

(** The same for a call that the driver rejects: the list request on a
    store that does not answer in time. *)
Example driver_rejection_reaches_the_caller :
  fst (Faulty.server GET_users ctx1
         (fun c => match c with
                   | CallFind => Some ("MongooseError", "Operation timed out")
                   | _ => None
                   end)
         None (get None) worldWithJo)
  = {| status := 500; body := failure "Operation timed out" |}.
Proof. reflexivity. Qed.

(** An error without a message is the one case of the generic message:
    the driver rejects the look-up of a create request with an error
    whose message is empty. *)
Example error_without_message_gets_the_generic_message :
  Faulty.server POST_users ctx1
    (fun c => match c with
              | CallFindOne => Some ("MongoNetworkError", EmptyString)
              | _ => None
              end)
    None (post jo) emptyWorld
  = ({| status := 500; body := failure "Internal Server Error" |},
     consoleError (e_stack (Faulty.rejection ("MongoNetworkError", EmptyString)))
       (logged CallFindOne emptyWorld)).
Proof. reflexivity. Qed.

(** ** Updating *)

Lemma findOne_excluding_run (id e : string) (o : ObjectId) (w : world) :
  castObjectId id = Some o ->
  User.findOne {| User.f_email := Some e; User.f_id_ne := Some id |} w
  = (inr (find (User.matches (JS.toLowerCase e) (Some o)) (users w)),
     logged CallFindOne w).
Proof.
  intros Hc. run. cbn [User.f_id_ne User.f_email]. rewrite Hc. reflexivity.
Qed.

Lemma no_other_holder (o : ObjectId) (e : string) (us : list user) :
  emailFreeFor o e us -> find (User.matches e (Some o)) us = None.
Proof.
  intros H. apply find_none_of. intros v Hv. unfold User.matches, User.hasId.
  destruct (String.eqb_spec (email v) e) as [He|]; [|reflexivity].
  rewrite (H v Hv He), N.eqb_refl. reflexivity.
Qed.

(** What the update schema lets through: each property of the data is
    the property of the payload, an address has the e-mail shape, and an
    age passes the [min] validator of the model. *)
Lemma update_data_valid props d :
  Zod.parse updateUserSchema (JObj props) = inr d ->
  (match Zod.d_name d with
   | Some n => getProp "name" props = Some (JStr n)
   | None => getProp "name" props = None
   end)
  /\ (match Zod.d_email d with
      | Some p => getProp "email" props = Some (JStr p) /\ Zod.isEmail p = true
      | None => getProp "email" props = None
      end)
  /\ (match Zod.d_age d with
      | Some q => getProp "age" props = Some (JNum q)
      | None => getProp "age" props = None
      end)
  /\ Mongoose.checkMin (Mongoose.p_age userSchema) "age" (Zod.d_age d) = [].
Proof.
  intros H. apply parse_ok in H. destruct H as (props' & E & Hn & He & Ha).
  inversion E; subst props'.
  apply parseString_ok in Hn, He. apply parseNumber_ok in Ha.
  split; [|split; [|split]].
  - destruct Hn as [(Hg & -> & _) | (n & Hg & -> & _)]; exact Hg.
  - destruct He as [(Hg & -> & _) | (p & Hg & -> & He)]; [exact Hg|].
    split; [exact Hg|].
    change (Zod.s_checks (Zod.sh_email updateUserSchema))
      with (Zod.s_checks (Zod.sh_email createUserSchema)) in He.
    now apply email_checks in He.
  - destruct Ha as [(Hg & -> & _) | (q & Hg & -> & _)]; exact Hg.
  - destruct Ha as [(_ & -> & _) | (q & _ & -> & Ha)]; [reflexivity|].
    change (Zod.n_checks (Zod.sh_age updateUserSchema))
      with (Zod.n_checks (Zod.sh_age createUserSchema)) in Ha.
    apply age_checks in Ha. destruct Ha as (z & Hz & Hr).
    unfold Mongoose.checkMin. cbn [Mongoose.min userSchema Mongoose.p_age].
    assert (Hq : Qle_bool 0 q = true).
    { apply Qle_bool_iff. rewrite Hz. change 0%Q with (inject_Z 0).
      rewrite <- Zle_Qle. lia. }
    now rewrite Hq.
Qed.

(** [updateUser] once the payload is parsed and the check for another
    holder of the address found nobody. *)
Lemma updateUser_proceeds (ctx : context) (req : request) (w : world)
      (d : Zod.UserData) (o : ObjectId) :
  Zod.parse updateUserSchema (req_body req) = inr d ->
  castObjectId (params_id req) = Some o ->
  (forall p, Zod.d_email d = Some p -> emailFreeFor o (JS.toLowerCase p) (users w)) ->
  updateUser ctx req w
  = match User.findByIdAndUpdate ctx (params_id req) d (afterCheck d w) with
    | (inr None, w') => (res_status_json 404 (failure "User not found"), w')
    | (inr (Some u), w') =>
        (res_json (succeeded (Some "User updated successfully") u), w')
    | (inl e, w') => catchValidation (Err e) w'
    end.
Proof.
  intros Hp Hc Hfree. unfold updateUser, tryCatch, zodParse, lift. unfold bind at 1.
  rewrite Hp. unfold bind at 1. unfold afterCheck.
  destruct (Zod.d_email d) as [[|c p]|] eqn:Hd.
  - unfold ret at 1. cbn beta iota. unfold bind, await, mapError, ret.
    destruct (User.findByIdAndUpdate ctx (params_id req) d w) as [[e|[u|]] w'];
      reflexivity.
  - unfold bind at 1, await at 1, mapError at 1.
    rewrite (findOne_excluding_run _ _ o w Hc).
    rewrite (no_other_holder o _ _ (Hfree _ eq_refl)).
    unfold ret at 1. cbn beta iota. unfold bind, await, mapError, ret.
    destruct (User.findByIdAndUpdate ctx (params_id req) d (logged CallFindOne w))
      as [[e|[u|]] w']; reflexivity.
  - unfold ret at 1. cbn beta iota. unfold bind, await, mapError, ret.
    destruct (User.findByIdAndUpdate ctx (params_id req) d w) as [[e|[u|]] w'];
      reflexivity.
Qed.

Lemma find_updateFirst (o : ObjectId) (f : user -> user) (us : list user) (u : user) :
  (forall v, _id (f v) = _id v) ->
  find (User.hasId o) us = Some u ->
  find (User.hasId o) (User.updateFirst o f us) = Some (f u).
Proof.
  intros Hid. induction us as [|v us IH]; simpl; [discriminate|].
  destruct (User.hasId o v) eqn:Hv.
  - intros E. inversion E; subst v. simpl.
    unfold User.hasId in *. now rewrite Hid, Hv.
  - intros E. simpl. rewrite Hv. now apply IH.
Qed.

(** Documents with another identifier are not touched by an update. *)
Lemma updateFirst_others (o : ObjectId) (f : user -> user) (us : list user) (v : user) :
  (forall x, _id (f x) = _id x) ->
  _id v <> o ->
  In v (User.updateFirst o f us) <-> In v us.
Proof.
  intros Hid Hv. induction us as [|x us IH]; simpl; [tauto|].
  destruct (User.hasId o x) eqn:Hx; simpl.
  - apply N.eqb_eq in Hx. split; intros [E|Hin]; auto.
    + subst v. rewrite Hid in Hv. contradiction.
    + subst v. contradiction.
  - rewrite IH. tauto.
Qed.

Lemma findByIdAndUpdate_run (ctx : context) (id : string) (d : Zod.UserData)
      (o : ObjectId) (u : user) (w : world) :
  castObjectId id = Some o ->
  User.updateValidators (User.castData d) = [] ->
  find (User.hasId o) (users w) = Some u ->
  User.findByIdAndUpdate ctx id d w
  = (inr (Some (User.applyUpdate ctx (User.castData d) u)),
     withUsers (User.updateFirst o (User.applyUpdate ctx (User.castData d)) (users w))
       (logged CallFindByIdAndUpdate w)).
Proof.
  intros Hc Hv Hf. run. rewrite Hc, Hv. cbn [users logged]. rewrite Hf. reflexivity.
Qed.

(** Whatever the update does, it makes exactly one call on the model. *)
Lemma findByIdAndUpdate_calls (ctx : context) (id : string) (d : Zod.UserData) (w : world) :
  calls (snd (User.findByIdAndUpdate ctx id d w))
  = (calls w ++ [CallFindByIdAndUpdate])%list.
Proof.
  run. destruct (castObjectId id); [|reflexivity].
  destruct (User.updateValidators (User.castData d)); [|reflexivity].
  cbn [users logged]. destruct (find _ _); reflexivity.
Qed.

(** C6. Let a User be stored under the identifier of an update request,
    with its address in lower case and held by no other document.  A
    payload whose [email] is that address is never answered with the
    conflict envelope; and when the payload passes the update schema, the
    check for another holder is made and then the update itself: the
    calls on the model are [findOne] and [findByIdAndUpdate]. *)
Theorem updateUser_own_email_no_conflict
        (ctx : context) (req : request) (w : world) (u : user) (o : ObjectId)
        (props : list (string * json)) :
  castObjectId (params_id req) = Some o ->
  find (User.hasId o) (users w) = Some u ->
  JS.toLowerCase (email u) = email u ->
  emailFreeFor o (email u) (users w) ->
  req_body req = JObj props ->
  getProp "email" props = Some (JStr (email u)) ->
  fst (app PUT_users_id ctx req w)
  <> {| status := 400; body := failure "Email already in use by another user" |}
  /\ (forall d, Zod.parse updateUserSchema (req_body req) = inr d ->
      calls (snd (app PUT_users_id ctx req w))
      = (calls w ++ [CallFindOne; CallFindByIdAndUpdate])%list).
Proof.
  intros Hc Hf Hlow Hfree Hb He.
  destruct (Zod.parse updateUserSchema (req_body req)) as [issues | d] eqn:Hp.
  - split; [|discriminate].
    unfold app, userRoutes. rewrite (updateUser_rejects ctx req w issues Hp).
    cbn. discriminate.
  - assert (Hd : Zod.d_email d = Some (email u)).
    { rewrite Hb in Hp. now rewrite (parse_email _ _ _ _ Hp He). }
    assert (Hmail : Zod.isEmail (email u) = true).
    { rewrite Hb in Hp. apply update_data_valid in Hp. rewrite Hd in Hp. tauto. }
    assert (Hrun := updateUser_proceeds ctx req w d o Hp Hc).
    rewrite Hd in Hrun. specialize (Hrun (fun p E => ltac:(inversion E; subst p;
                                           rewrite Hlow; exact Hfree))).
    assert (Hw : afterCheck d w = logged CallFindOne w).
    { unfold afterCheck. rewrite Hd. destruct (email u); [discriminate|reflexivity]. }
    rewrite Hw in Hrun.
    pose proof (findByIdAndUpdate_calls ctx (params_id req) d (logged CallFindOne w)) as Hcalls.
    unfold app, userRoutes. rewrite Hrun.
    destruct (User.findByIdAndUpdate ctx (params_id req) d (logged CallFindOne w))
      as [[e|[u'|]] w'] eqn:Hup; cbn [snd] in Hcalls.
    + (* the validators of the update failed *)
      assert (Hname : e_name e = "ValidationError").
      { revert Hup. run. rewrite Hc.
        destruct (User.updateValidators (User.castData d)).
        - cbn [users logged]. destruct (find _ _); discriminate.
        - intros E. inversion E. reflexivity. }
      unfold catchValidation. rewrite Hname. cbn [String.eqb Ascii.eqb Bool.eqb].
      assert (Hmsg : e_status e = None /\ exists m, e_message e = ("Validation failed" ++ m)%string).
      { revert Hup. run. rewrite Hc.
        destruct (User.updateValidators (User.castData d)).
        - cbn [users logged]. destruct (find _ _); discriminate.
        - intros E. inversion E. split; [reflexivity|]. eexists. reflexivity. }
      destruct Hmsg as (Hst & m & Hm).
      split.
      * unfold errorHandler. cbn [fst]. rewrite Hst, Hm. cbn. discriminate.
      * intros d' E. inversion E; subst d'. unfold errorHandler. cbn [snd].
        unfold consoleError. cbn [calls]. rewrite Hcalls. unfold logged. cbn [calls].
        now rewrite <- app_assoc.
    + split; [cbn; discriminate|].
      intros d' E. cbn [snd res_json res_status_json]. rewrite Hcalls.
      unfold logged. cbn [calls]. now rewrite <- app_assoc.
    + split; [cbn; discriminate|].
      intros d' E. cbn [snd res_json res_status_json]. rewrite Hcalls.
      unfold logged. cbn [calls]. now rewrite <- app_assoc.
Qed.

Lemma updateUser_own_email_no_conflict_witness :
  fst (app PUT_users_id ctx2 (put joId (JObj [("email", JStr "a@b.com")])) worldWithJoAndAl)
  <> {| status := 400; body := failure "Email already in use by another user" |}
  /\ (forall d,
        Zod.parse updateUserSchema
          (req_body (put joId (JObj [("email", JStr "a@b.com")]))) = inr d ->
        calls (snd (app PUT_users_id ctx2 (put joId (JObj [("email", JStr "a@b.com")]))
                      worldWithJoAndAl))
        = (calls worldWithJoAndAl ++ [CallFindOne; CallFindByIdAndUpdate])%list).
Proof.
  apply (updateUser_own_email_no_conflict ctx2
           (put joId (JObj [("email", JStr "a@b.com")])) worldWithJoAndAl joUser 1%N
           [("email", JStr "a@b.com")]).
  - reflexivity.
  - reflexivity.
  - reflexivity.
  - intros v Hv He. simpl in Hv. destruct Hv as [<- | [<- | []]].
    + reflexivity.
    + simpl in He. discriminate He.
  - reflexivity.
  - reflexivity.
Defined.

(** C7 as stated fails: the payload with Al's address passes the update
    schema, and the update of Jo with it is answered 400; Jo's document,
    [updatedAt] included, stays as it was. *)
Lemma updateUser_taken_email_400 :
  Zod.parse updateUserSchema (JObj [("email", JStr "al@b.com")])
  = inr {| Zod.d_name := None; Zod.d_email := Some "al@b.com"; Zod.d_age := None |}
  /\ app PUT_users_id ctx2 (put joId (JObj [("email", JStr "al@b.com")])) worldWithJoAndAl
     = ({| status := 400; body := failure "Email already in use by another user" |},
        logged CallFindOne worldWithJoAndAl)
  /\ status (fst (app PUT_users_id ctx2 (put joId (JObj [("email", JStr "al@b.com")]))
                    worldWithJoAndAl)) <> 200.
Proof. repeat split. vm_compute. discriminate. Qed.

Lemma update_validators_pass props d :
  Zod.parse updateUserSchema (JObj props) = inr d ->
  (forall n, getProp "name" props = Some (JStr n) -> notBlank n) ->
  User.updateValidators (User.castData d) = [].
Proof.
  intros Hp Hblank. destruct (update_data_valid props d Hp) as (Hn & He & _ & Hmin).
  unfold User.updateValidators, User.castData. cbn [Zod.d_name Zod.d_email Zod.d_age].
  rewrite Hmin.
  assert (Hname : match option_map (Mongoose.applySetters (Mongoose.p_name userSchema))
                          (Zod.d_name d) with
                  | Some _ => Mongoose.checkRequired (Mongoose.p_name userSchema) "name"
                                (option_map (Mongoose.applySetters (Mongoose.p_name userSchema))
                                   (Zod.d_name d))
                  | None => []
                  end = []).
  { destruct (Zod.d_name d) as [n|]; [|reflexivity]. cbn [option_map].
    rewrite name_setter. apply checkRequired_nonempty. now apply Hblank. }
  assert (Hmail : match option_map (Mongoose.applySetters (Mongoose.p_email userSchema))
                          (Zod.d_email d) with
                  | Some _ => Mongoose.checkRequired (Mongoose.p_email userSchema) "email"
                                (option_map (Mongoose.applySetters (Mongoose.p_email userSchema))
                                   (Zod.d_email d))
                  | None => []
                  end = []).
  { destruct (Zod.d_email d) as [p|]; [|reflexivity]. cbn [option_map].
    rewrite email_setter. apply checkRequired_nonempty.
    apply toLowerCase_nonempty, isEmail_nonempty. tauto. }
  rewrite Hname, Hmail. reflexivity.
Qed.

(** C7, amended.  Let a User be stored under the identifier of an update
    request.  When the payload passes the update schema, its address (if
    it has one) is in lower case held by no other document, and its name
    (if it has one) is not blank, the answer is status 200 with the
    updated document, which is the document now stored under the
    identifier.  In it every property that the payload does not have
    keeps its value, as do [_id] and [createdAt]; a property that the
    payload has takes the payload's value (the name trimmed, the address
    in lower case); [updatedAt] is the time of the request.  Documents
    with another identifier are not touched. *)
Theorem updateUser_partial_update
        (ctx : context) (req : request) (w : world) (u : user) (o : ObjectId)
        (props : list (string * json)) (d : Zod.UserData) :
  castObjectId (params_id req) = Some o ->
  find (User.hasId o) (users w) = Some u ->
  req_body req = JObj props ->
  Zod.parse updateUserSchema (req_body req) = inr d ->
  (forall p, getProp "email" props = Some (JStr p) ->
             emailFreeFor o (JS.toLowerCase p) (users w)) ->
  (forall n, getProp "name" props = Some (JStr n) -> notBlank n) ->
  exists u' w',
    app PUT_users_id ctx req w
    = ({| status := 200; body := succeeded (Some "User updated successfully") u' |}, w')
    /\ find (User.hasId o) (users w') = Some u'
    /\ (getProp "name" props = None -> name u' = name u)
    /\ (getProp "email" props = None -> email u' = email u)
    /\ (getProp "age" props = None -> age u' = age u)
    /\ (forall n, getProp "name" props = Some (JStr n) -> name u' = JS.trim n)
    /\ (forall p, getProp "email" props = Some (JStr p) -> email u' = JS.toLowerCase p)
    /\ (forall q, getProp "age" props = Some (JNum q) -> age u' = Some q)
    /\ _id u' = _id u
    /\ createdAt u' = createdAt u
    /\ updatedAt u' = now ctx
    /\ (forall v, _id v <> o -> In v (users w') <-> In v (users w)).
Proof.
  intros Hc Hf Hb Hp Hfree Hblank.
  assert (Hp' := Hp). rewrite Hb in Hp'.
  destruct (update_data_valid props d Hp') as (Hn & He & Ha & _).
  pose proof (update_validators_pass props d Hp' Hblank) as Hval.
  assert (Hfree' : forall p, Zod.d_email d = Some p ->
                             emailFreeFor o (JS.toLowerCase p) (users w)).
  { intros p E. rewrite E in He. apply Hfree. tauto. }
  assert (Hu : users (afterCheck d w) = users w).
  { unfold afterCheck. destruct (Zod.d_email d) as [[|? ?]|]; reflexivity. }
  pose proof (updateUser_proceeds ctx req w d o Hp Hc Hfree') as Hrun.
  rewrite (findByIdAndUpdate_run ctx (params_id req) d o u (afterCheck d w) Hc Hval)
    in Hrun by (rewrite Hu; exact Hf).
  set (u' := User.applyUpdate ctx (User.castData d) u) in *.
  exists u'. eexists. split.
  { unfold app, userRoutes. rewrite Hrun. reflexivity. }
  cbn [users withUsers]. rewrite Hu.
  split; [apply find_updateFirst; [reflexivity | exact Hf]|].
  subst u'. unfold User.applyUpdate, User.castData.
  cbn [name email age _id createdAt updatedAt Zod.d_name Zod.d_email Zod.d_age].
  repeat match goal with |- _ /\ _ => split end; try reflexivity.
  - intros E. rewrite E in Hn. destruct (Zod.d_name d); [discriminate|reflexivity].
  - intros E. rewrite E in He.
    destruct (Zod.d_email d); [destruct He; discriminate|reflexivity].
  - intros E. rewrite E in Ha. destruct (Zod.d_age d); [discriminate|reflexivity].
  - intros n E. rewrite E in Hn. destruct (Zod.d_name d) as [n'|]; [|discriminate].
    inversion Hn; subst n'. reflexivity.
  - intros p E. rewrite E in He. destruct (Zod.d_email d) as [p'|]; [|discriminate].
    destruct He as [He _]. inversion He; subst p'. reflexivity.
  - intros q E. rewrite E in Ha. destruct (Zod.d_age d) as [q'|]; [|discriminate].
    inversion Ha; subst q'. reflexivity.
  - intros v Hv. apply updateFirst_others; [reflexivity | exact Hv].
Qed.

(** The scenario of the specification: PUT with the age only. *)
Lemma updateUser_partial_update_witness :
  exists u' w',
    app PUT_users_id ctx2 (put joId (JObj [("age", JNum 31)])) worldWithJoAndAl
    = ({| status := 200; body := succeeded (Some "User updated successfully") u' |}, w')
    /\ find (User.hasId 1%N) (users w') = Some u'
    /\ (getProp "name" [("age", JNum 31)] = None -> name u' = name joUser)
    /\ (getProp "email" [("age", JNum 31)] = None -> email u' = email joUser)
    /\ (getProp "age" [("age", JNum 31)] = None -> age u' = age joUser)
    /\ (forall n, getProp "name" [("age", JNum 31)] = Some (JStr n) -> name u' = JS.trim n)
    /\ (forall p, getProp "email" [("age", JNum 31)] = Some (JStr p) ->
                  email u' = JS.toLowerCase p)
    /\ (forall q, getProp "age" [("age", JNum 31)] = Some (JNum q) -> age u' = Some q)
    /\ _id u' = _id joUser
    /\ createdAt u' = createdAt joUser
    /\ updatedAt u' = now ctx2
    /\ (forall v, _id v <> 1%N -> In v (users w') <-> In v (users worldWithJoAndAl)).
Proof.
  apply (updateUser_partial_update ctx2 (put joId (JObj [("age", JNum 31)]))
           worldWithJoAndAl joUser 1%N [("age", JNum 31)]
           {| Zod.d_name := None; Zod.d_email := None; Zod.d_age := Some 31%Q |}).
  - reflexivity.
  - reflexivity.
  - reflexivity.
  - reflexivity.
  - intros p Hp. simpl in Hp. discriminate Hp.
  - intros n Hn. simpl in Hn. discriminate Hn.
Defined.

(** ** The invariants of the collection

    The handlers keep the collection within [storeInvariant]: what C1 and
    C6 ask of the stored documents holds in every world that requests can
    lead to. *)

Lemma find_none_matches (o : ObjectId) (e : string) (us : list user) :
  find (User.matches e (Some o)) us = None -> emailFreeFor o e us.
Proof.
  intros H v Hv He. pose proof (find_none _ _ H v Hv) as Hm.
  unfold User.matches, User.hasId in Hm.
  rewrite (proj2 (String.eqb_eq _ _) He) in Hm. cbn in Hm.
  apply negb_false_iff in Hm. now apply N.eqb_eq in Hm.
Qed.

Lemma find_none_free (e : string) (us : list user) :
  find (User.matches e None) us = None -> emailFree e us.
Proof.
  intros H v Hv He. pose proof (find_none _ _ H v Hv) as Hm.
  unfold User.matches in Hm. rewrite (proj2 (String.eqb_eq _ _) He) in Hm.
  discriminate.
Qed.

Lemma removeFirst_In (o : ObjectId) (us : list user) (v : user) :
  In v (User.removeFirst o us) -> In v us.
Proof.
  induction us as [|x us IH]; simpl; [tauto|].
  destruct (User.hasId o x); simpl; tauto.
Qed.

Lemma updateFirst_In (o : ObjectId) (f : user -> user) (us : list user) (v : user) :
  In v (User.updateFirst o f us) ->
  In v us \/ exists x, In x us /\ _id x = o /\ v = f x.
Proof.
  induction us as [|x us IH]; simpl; [tauto|].
  destruct (User.hasId o x) eqn:Hx; simpl.
  - intros [E | Hin]; [|tauto]. right. exists x.
    apply N.eqb_eq in Hx. auto.
  - intros [E | Hin]; [tauto|]. destruct (IH Hin) as [|(y & Hy & Hid & E)]; [tauto|].
    right. exists y. auto.
Qed.

Lemma storeInvariant_sub (us vs : list user) :
  (forall v, In v vs -> In v us) -> storeInvariant us -> storeInvariant vs.
Proof.
  intros Hsub [Hn Hu]. split.
  - intros v Hv. apply Hn. auto.
  - intros a b Ha Hb. apply Hu; auto.
Qed.

Lemma storeInvariant_insert (us : list user) (u : user) :
  storeInvariant us ->
  JS.toLowerCase (email u) = email u ->
  emailFree (email u) us ->
  storeInvariant (us ++ [u]).
Proof.
  intros [Hn Hu] Hlow Hfree. split.
  - intros v Hv. apply in_app_or in Hv. destruct Hv as [Hv | [<- | []]]; auto.
  - intros a b Ha Hb E. apply in_app_or in Ha, Hb.
    destruct Ha as [Ha | [<- | []]]; destruct Hb as [Hb | [<- | []]]; auto.
    + exfalso. now apply (Hfree a Ha).
    + exfalso. now apply (Hfree b Hb).
Qed.

Lemma storeInvariant_update (o : ObjectId) (f : user -> user) (us : list user) :
  storeInvariant us ->
  (forall x, _id (f x) = _id x) ->
  (forall x, In x us -> JS.toLowerCase (email (f x)) = email (f x)) ->
  (forall x, email (f x) = email x) \/ (forall x, emailFreeFor o (email (f x)) us) ->
  storeInvariant (User.updateFirst o f us).
Proof.
  intros [Hn Hu] Hid Hlow Hmail. split.
  - intros v Hv. apply updateFirst_In in Hv.
    destruct Hv as [Hv | (x & Hx & _ & ->)]; auto.
  - assert (Hmixed : forall x b, In x us -> _id x = o -> In b us ->
                                 email (f x) = email b -> _id (f x) = _id b).
    { intros x b Hx Hxo Hb E. rewrite Hid. destruct Hmail as [Hsame | Hfree].
      - rewrite Hsame in E. now apply Hu.
      - rewrite Hxo. symmetry. now apply (Hfree x b Hb). }
    intros a b Ha Hb E. apply updateFirst_In in Ha, Hb.
    destruct Ha as [Ha | (x & Hx & Hxo & ->)];
      destruct Hb as [Hb | (y & Hy & Hyo & ->)].
    + now apply Hu.
    + symmetry. apply Hmixed; auto.
    + apply Hmixed; auto.
    + rewrite !Hid. congruence.
Qed.

Lemma getUsers_keeps_users (ctx : context) (req : request) (w : world) :
  users (snd (app GET_users ctx req w)) = users w.
Proof.
  run. destruct (query_id req) as [[|c id]|]; try reflexivity.
  destruct (castObjectId _); [|reflexivity].
  cbn [users logged]. destruct (find _ _); reflexivity.
Qed.

Lemma deleteUser_preserves (ctx : context) (req : request) (w : world) :
  storeInvariant (users w) -> storeInvariant (users (snd (app DELETE_users_id ctx req w))).
Proof.
  intros H. run. destruct (castObjectId _) as [o|]; [|exact H].
  cbn [users logged]. destruct (find _ _); [|exact H].
  cbn [snd users withUsers]. eapply storeInvariant_sub; [|exact H].
  intros v. apply removeFirst_In.
Qed.

Lemma createUser_preserves (ctx : context) (req : request) (w : world) :
  storeInvariant (users w) -> storeInvariant (users (snd (app POST_users ctx req w))).
Proof.
  intros H. run.
  destruct (Zod.parse createUserSchema (req_body req)) as [issues|d]; [exact H|].
  cbn [User.f_id_ne User.f_email users logged].
  destruct (Zod.d_email d) as [p|] eqn:Hd.
  - rewrite email_setter.
    destruct (find (User.matches (JS.toLowerCase p) None) (users w)) eqn:Hf; [exact H|].
    unfold User.castData. cbn [Zod.d_name Zod.d_email Zod.d_age]. rewrite Hd.
    cbn [option_map]. rewrite email_setter.
    destruct (_ ++ _)%list; [|exact H].
    cbn [snd users withUsers logged User.orEmpty].
    apply storeInvariant_insert; [exact H | | ]; cbn [email].
    + apply toLowerCase_idempotent.
    + now apply find_none_free.
  - unfold User.castData. cbn [Zod.d_name Zod.d_email Zod.d_age]. rewrite Hd.
    cbn [option_map Mongoose.checkRequired Mongoose.required userSchema Mongoose.p_email].
    destruct (Mongoose.checkRequired _ _ _); exact H.
Qed.

Lemma updateUser_preserves (ctx : context) (req : request) (w : world) :
  storeInvariant (users w) -> storeInvariant (users (snd (app PUT_users_id ctx req w))).
Proof.
  intros H. run.
  destruct (Zod.parse updateUserSchema (req_body req)) as [issues|d]; [exact H|].
  assert (Hid : forall x, _id (User.applyUpdate ctx (User.castData d) x) = _id x)
    by reflexivity.
  destruct (Zod.d_email d) as [[|c p]|] eqn:Hd.
  - (* an empty address: the validator of the update refuses it *)
    destruct (castObjectId _) as [o|]; [|exact H].
    unfold User.updateValidators, User.castData.
    cbn [Zod.d_name Zod.d_email Zod.d_age]. rewrite Hd.
    destruct (match option_map _ (Zod.d_name d) with Some _ => _ | None => _ end);
      exact H.
  - cbn [User.f_id_ne User.f_email]. destruct (castObjectId _) as [o|]; [|exact H].
    cbn [users logged]. rewrite email_setter.
    destruct (find (User.matches _ (Some o)) (users w)) eqn:Hf; [exact H|].
    destruct (User.updateValidators _); [|exact H].
    cbn [users logged]. destruct (find (User.hasId o) (users w)); [|exact H].
    cbn [snd users withUsers].
    assert (He : forall x, email (User.applyUpdate ctx (User.castData d) x)
                           = JS.toLowerCase (String c p)).
    { intros x. unfold User.applyUpdate, User.castData.
      cbn [email Zod.d_email]. rewrite Hd. reflexivity. }
    apply storeInvariant_update; [exact H | exact Hid | |].
    + intros x _. rewrite He. apply toLowerCase_idempotent.
    + right. intros x. rewrite He. now apply find_none_matches.
  - destruct (castObjectId _) as [o|]; [|exact H].
    destruct (User.updateValidators _); [|exact H].
    cbn [users logged]. destruct (find (User.hasId o) (users w)); [|exact H].
    cbn [snd users withUsers].
    assert (He : forall x, email (User.applyUpdate ctx (User.castData d) x) = email x).
    { intros x. unfold User.applyUpdate, User.castData.
      cbn [email Zod.d_email]. rewrite Hd. reflexivity. }
    apply storeInvariant_update; [exact H | exact Hid | |].
    + intros x Hx. rewrite He. now apply (proj1 H).
    + left. exact He.
Qed.

(** Every request keeps the invariants of the collection. *)
Lemma app_preserves_storeInvariant (r : route) (ctx : context) (req : request) (w : world) :
  storeInvariant (users w) -> storeInvariant (users (snd (app r ctx req w))).
Proof.
  destruct r.
  - now rewrite getUsers_keeps_users.
  - apply createUser_preserves.
  - apply updateUser_preserves.
  - apply deleteUser_preserves.
Qed.

(** In every world that requests lead to from the empty collection, the
    stored addresses are in lower case and no two documents share one. *)
Lemma reachable_storeInvariant (w : world) : reachable w -> storeInvariant (users w).
Proof.
  induction 1 as [|r ctx req w _ IH].
  - split; [intros u []|intros u v []].
  - now apply app_preserves_storeInvariant.
Qed.

(** ** What reaches [next] *)

(** X24. Every error that a handler hands to [next] is one of three: the
    cast error of an identifier, the validation error of the model (both
    with a message that is not empty), or the error with which the
    driver rejected one of the calls on the model.  None of them has a
    [status].  On a store that answers every call only the first two are
    left. *)
Theorem handler_errors_are_model_or_driver_errors
        (r : route) (ctx : context) (fs : Faulty.faults) (req : request)
        (w w1 : world) (err : jserror) :
  Faulty.userRoutes r ctx fs req w = (Next err, w1) ->
  e_status err = None
  /\ ((e_name err = "CastError" /\ e_message err <> "")
      \/ (e_name err = "ValidationError" /\ e_message err <> "")
      \/ exists c f, fs c = Some f /\ err = Faulty.rejection f)
  /\ (fs = Faulty.noFaults ->
      e_name err = "CastError" \/ e_name err = "ValidationError").
Proof.
  intros H.
  assert (C : (e_name err = "CastError" /\ e_message err <> "")
              \/ (e_name err = "ValidationError" /\ e_message err <> "")
              \/ exists c f, fs c = Some f /\ err = Faulty.rejection f).
  { revert H. destruct r; runF; casesF; try discriminate;
      intros E; inversion E; subst;
      first
        [ left; split; [reflexivity | cbn; discriminate]
        | right; left; split; [reflexivity | cbn; discriminate]
        | right; right; eexists; eexists; split; [eassumption | reflexivity] ]. }
  split; [exact (faulty_error_status r ctx fs req w w1 err H)|].
  split; [exact C|].
  intros ->. destruct C as [[Hn _] | [[Hn _] | (c & f & Hf & _)]];
    [now left | now right | discriminate].
Qed.

(** The cast error of a DELETE for "bogus". *)
Lemma handler_errors_are_model_or_driver_errors_witness :
  let err := Mongoose.CastError "bogus" "_id" "User" in
  e_status err = None
  /\ ((e_name err = "CastError" /\ e_message err <> "")
      \/ (e_name err = "ValidationError" /\ e_message err <> "")
      \/ exists c f, Faulty.noFaults c = Some f /\ err = Faulty.rejection f)
  /\ (Faulty.noFaults = Faulty.noFaults ->
      e_name err = "CastError" \/ e_name err = "ValidationError").
Proof.
  apply (handler_errors_are_model_or_driver_errors DELETE_users_id ctx1 Faulty.noFaults
           (delete "bogus") emptyWorld (logged CallFindByIdAndDelete emptyWorld)
           (Mongoose.CastError "bogus" "_id" "User")).
  reflexivity.
Defined.

(** ** Names that are blank

    The create and update schemas count the characters of a name as it
    is sent, and the model trims it before its [required] validator
    runs: a name of two spaces passes the schema and is refused by the
    model, which the caller sees as a 500. *)
Lemma createUser_blank_name_500 :
  accepted (JObj [("name", JStr "  "); ("email", JStr "a@b.com")]) = true
  /\ fst (app POST_users ctx1
            (post (JObj [("name", JStr "  "); ("email", JStr "a@b.com")])) emptyWorld)
     = {| status := 500;
          body := failure "User validation failed: name: Path `name` is required." |}.
Proof. split; reflexivity. Qed.

Lemma updateUser_blank_name_500 :
  fst (app PUT_users_id ctx2 (put joId (JObj [("name", JStr "  ")])) worldWithJo)
  = {| status := 500;
       body := failure "Validation failed: name: Path `name` is required." |}
  /\ users (snd (app PUT_users_id ctx2 (put joId (JObj [("name", JStr "  ")])) worldWithJo))
     = [joUser].
Proof. split; reflexivity. Qed.

(** * Further properties *)

(** ** What any request can do *)



(** * The application with everything that can fail *)

Lemma driver_noFaults {A} (c : dbCall) (op : M jserror A) (w : world) :
  Faulty.driver Faulty.noFaults c op w = op w.
Proof. unfold Faulty.driver, Faulty.noFaults. destruct (op w) as [[e|a] w']; reflexivity. Qed.


Lemma server_outcome (r : route) (ctx : context) (fs : Faulty.faults)
      (req : request) (w : world) :
  let res := fst (Faulty.server r ctx fs None req w) in
  let w' := snd (Faulty.server r ctx fs None req w) in
  (success (body res) = true
   /\ status res = match r with POST_users => 201 | _ => 200 end
   /\ data (body res) <> None
   /\ errors (body res) = None
   /\ console w' = console w)
  \/ (success (body res) = false
      /\ data (body res) = None
      /\ users w' = users w
      /\ ((status res = 400 \/ status res = 404) /\ console w' = console w
          \/ (status res = 500 /\ exists l, console w' = (console w ++ [l])%list))).
Proof.
  destruct r; runF; unfold errorHandler; casesF.
  all: leaf.
Qed.

(** X1. The status of a response.  A request that a body parser refuses
    is answered by the error middleware with the parser's error: its own
    status (500 when it has none), [success] false.  Any other request of
    the user routes, whatever the collection and whatever the driver does
    to the calls, is answered with one of 200, 201, 400, 404 and 500, 201
    coming from the create route only, and [success] is true exactly for
    200 and 201.  In every case the envelope carries [data] exactly when
    [success] is true. *)
Theorem server_status_and_success
        (r : route) (ctx : context) (fs : Faulty.faults)
        (bodyError : option jserror) (req : request) (w : world) :
  let res := fst (Faulty.server r ctx fs bodyError req w) in
  (forall err, bodyError = Some err ->
     status res = match e_status err with
                  | Some 0 | None => 500
                  | Some s => s
                  end
     /\ success (body res) = false)
  /\ (bodyError = None ->
      In (status res) [200; 201; 400; 404; 500]
      /\ (success (body res) = true <-> status res = 200 \/ status res = 201)
      /\ (status res = 201 -> r = POST_users))
  /\ (success (body res) = true <-> data (body res) <> None).
Proof.
  intros res. subst res. destruct bodyError as [err|].
  - split; [|split].
    + intros e E. inversion E; subst e. split; reflexivity.
    + discriminate.
    + unfold Faulty.server, errorHandler. cbn [fst body failure success data].
      split; [discriminate | intros H; now contradiction H].
  - split; [discriminate|].
    destruct (server_outcome r ctx fs req w)
      as [(Hs & Hst & Hd & _) | (Hs & Hd & _ & [([Hst | Hst] & _) | (Hst & _)])];
      rewrite Hs, Hst, ?Hd; (split; [intros _|]).
    all: try (destruct r; cbn; repeat split; intros; try tauto; try discriminate; auto;
              fail).
    all: cbn; repeat split; intros; try tauto; try discriminate;
      try (destruct H; discriminate); try congruence.
Qed.




(** ** Identifiers written and read back *)

Lemma hexDigit_hexChar (d : N) : (d < 16)%N -> hexDigit (hexChar d) = Some d.
Proof.
  intros H.
  assert (E : (d = 0 \/ d = 1 \/ d = 2 \/ d = 3 \/ d = 4 \/ d = 5 \/ d = 6 \/ d = 7
               \/ d = 8 \/ d = 9 \/ d = 10 \/ d = 11 \/ d = 12 \/ d = 13 \/ d = 14
               \/ d = 15)%N) by lia.
  repeat (destruct E as [-> | E]; [reflexivity|]). subst d. reflexivity.
Qed.

Lemma hexValue_hexDigits (n : nat) :
  forall (v a : N) (rest : string),
    hexValue a (hexDigits n v rest)
    = hexValue (a * 16 ^ N.of_nat n + v mod 16 ^ N.of_nat n)%N rest.
Proof.
  induction n as [|n IH]; intros v a rest.
  - cbn [hexDigits N.of_nat]. rewrite N.pow_0_r, N.mod_1_r. f_equal. lia.
  - cbn [hexDigits]. rewrite IH. cbn [hexValue].
    rewrite hexDigit_hexChar by (apply N.mod_lt; discriminate).
    f_equal. rewrite Nat2N.inj_succ, N.pow_succ_r'.
    rewrite (N.Div0.mod_mul_r v 16 (16 ^ N.of_nat n)). lia.
Qed.

Lemma length_hexDigits (n : nat) :
  forall (v : N) (rest : string),
    String.length (hexDigits n v rest) = (n + String.length rest)%nat.
Proof.
  induction n as [|n IH]; intros v rest; cbn [hexDigits]; [reflexivity|].
  rewrite IH. cbn [String.length]. lia.
Qed.

Lemma castObjectId_toHexString (o : ObjectId) :
  (o < 16 ^ 24)%N -> castObjectId (toHexString o) = Some o.
Proof.
  intros H. unfold castObjectId, toHexString.
  rewrite length_hexDigits. cbn [String.length Nat.add Nat.eqb].
  rewrite hexValue_hexDigits. cbn [hexValue]. f_equal.
  change (N.of_nat 24) with 24%N. rewrite N.mod_small by exact H. lia.
Qed.

Lemma toHexString_nonempty (o : ObjectId) : toHexString o <> "".
Proof.
  intros E. pose proof (length_hexDigits 24 o "") as H.
  unfold toHexString in E. rewrite E in H. discriminate.
Qed.

(** The look-up of one User, once the identifier is cast. *)
Lemma getUsers_one_run (req : request) (w : world) (id : string) (o : ObjectId) :
  query_id req = Some id ->
  id <> "" ->
  castObjectId id = Some o ->
  getUsers req w
  = match find (User.hasId o) (users w) with
    | Some u => (res_json (succeeded None u), logged CallFindById w)
    | None => (res_status_json 404 (failure "User not found"), logged CallFindById w)
    end.
Proof.
  intros Hq Hne Hc. run. rewrite Hq. destruct id as [|c id]; [congruence|].
  rewrite Hc. cbn [users logged]. destruct (find _ _); reflexivity.
Qed.

Lemma createUser_inserts
      (ctx : context) (req : request) (w : world)
      (props : list (string * json)) (n p : string) (d : Zod.UserData) :
  req_body req = JObj props ->
  Zod.parse createUserSchema (req_body req) = inr d ->
  getProp "name" props = Some (JStr n) ->
  getProp "email" props = Some (JStr p) ->
  emailFree (JS.toLowerCase p) (users w) ->
  notBlank n ->
  let u := {| _id := newId ctx; name := JS.trim n; email := JS.toLowerCase p;
              age := Zod.d_age d; createdAt := now ctx; updatedAt := now ctx |} in
  createUser ctx req w
  = (res_status_json 201 (succeeded (Some "User created successfully") u),
     withUsers (users w ++ [u]) (logged CallCreate (logged CallFindOne w))).
Proof.
  intros Hb Hp Hn He Hfree Hblank u.
  rewrite Hb in Hp.
  destruct (create_data_valid props d Hp) as (n' & p' & Hdn & Hgn & Hdp & Hgp & Hmail & Hmin).
  assert (n' = n) by congruence. assert (p' = p) by congruence. subst n' p'.
  assert (Hf : find (User.matches (JS.toLowerCase p) None) (users (logged CallFindOne w))
               = None).
  { apply find_none_of. intros v Hv. unfold User.matches. rewrite andb_true_r.
    apply String.eqb_neq. now apply Hfree. }
  run. rewrite Hb, Hp. cbn [User.f_id_ne User.f_email].
  rewrite Hdp, email_setter, Hf. unfold User.castData.
  cbn [Zod.d_name Zod.d_email Zod.d_age]. rewrite Hdn, Hdp. cbn [option_map].
  rewrite name_setter, email_setter, Hmin.
  rewrite (checkRequired_nonempty _ _ _ Hblank).
  rewrite checkRequired_nonempty
    by (apply toLowerCase_nonempty; now apply isEmail_nonempty).
  reflexivity.
Qed.

Lemma find_app_new (o : ObjectId) (us : list user) (u : user) :
  (forall v, In v us -> _id v <> o) -> _id u = o ->
  find (User.hasId o) (us ++ [u]) = Some u.
Proof.
  intros Hfresh Hu. induction us as [|x us IH]; simpl.
  - unfold User.hasId. rewrite Hu, N.eqb_refl. reflexivity.
  - unfold User.hasId at 1. destruct (N.eqb_spec (_id x) o) as [E|_].
    + exfalso. apply (Hfresh x); [now left | exact E].
    + apply IH. intros v Hv. apply Hfresh. now right.
Qed.

(** X4. Create, then get.  A payload that creates a User (it passes the
    create schema, its address is free, its name is not blank) is
    answered with a document; when the identifier generated for it fits
    96 bits and is new to the collection, a GET with that identifier, as
    the response writes it, is answered 200 with the same document. *)
Theorem created_user_is_found
        (ctx ctx' : context) (req : request) (w : world)
        (props : list (string * json)) (n p : string) (d : Zod.UserData) :
  req_body req = JObj props ->
  Zod.parse createUserSchema (req_body req) = inr d ->
  getProp "name" props = Some (JStr n) ->
  getProp "email" props = Some (JStr p) ->
  emailFree (JS.toLowerCase p) (users w) ->
  notBlank n ->
  (newId ctx < 16 ^ 24)%N ->
  (forall v, In v (users w) -> _id v <> newId ctx) ->
  exists u w1,
    app POST_users ctx req w
    = ({| status := 201; body := succeeded (Some "User created successfully") u |}, w1)
    /\ app GET_users ctx' (get (Some (toHexString (_id u)))) w1
       = ({| status := 200; body := succeeded None u |}, logged CallFindById w1).
Proof.
  intros Hb Hp Hn He Hfree Hblank Hsmall Hnew.
  pose proof (createUser_inserts ctx req w props n p d Hb Hp Hn He Hfree Hblank) as Hc.
  cbv zeta in Hc.
  set (u := {| _id := newId ctx; name := JS.trim n; email := JS.toLowerCase p;
               age := Zod.d_age d; createdAt := now ctx; updatedAt := now ctx |}) in *.
  exists u, (withUsers (users w ++ [u]) (logged CallCreate (logged CallFindOne w))).
  split.
  - unfold app, userRoutes. rewrite Hc. reflexivity.
  - unfold app, userRoutes.
    rewrite (getUsers_one_run (get (Some (toHexString (_id u)))) _
               (toHexString (newId ctx)) (newId ctx) eq_refl
               (toHexString_nonempty _) (castObjectId_toHexString _ Hsmall)).
    cbn [users withUsers]. rewrite find_app_new; [reflexivity | exact Hnew | reflexivity].
Qed.

Lemma created_user_is_found_witness :
  exists u w1,
    app POST_users ctx1 (post jo) emptyWorld
    = ({| status := 201; body := succeeded (Some "User created successfully") u |}, w1)
    /\ app GET_users ctx2 (get (Some (toHexString (_id u)))) w1
       = ({| status := 200; body := succeeded None u |}, logged CallFindById w1).
Proof.
  apply (created_user_is_found ctx1 ctx2 (post jo) emptyWorld
           [("name", JStr "Jo"); ("email", JStr "A@B.com"); ("age", JNum 30)]
           "Jo" "A@B.com" joData).
  - reflexivity.
  - reflexivity.
  - reflexivity.
  - reflexivity.
  - intros v Hv. simpl in Hv. destruct Hv.
  - unfold notBlank. vm_compute. discriminate.
  - vm_compute. reflexivity.
  - intros v Hv. simpl in Hv. destruct Hv.
Defined.

(** ** Deleting and looking up *)

Lemma removeFirst_perm (o : ObjectId) (us : list user) (u : user) :
  find (User.hasId o) us = Some u -> Permutation us (u :: User.removeFirst o us).
Proof.
  induction us as [|x us IH]; simpl; [discriminate|].
  destruct (User.hasId o x).
  - intros E. inversion E. reflexivity.
  - intros E. rewrite perm_swap. apply perm_skip. now apply IH.
Qed.

Lemma find_removeFirst_unique (o : ObjectId) (us : list user) :
  idsUnique us -> find (User.hasId o) (User.removeFirst o us) = None.
Proof.
  unfold idsUnique. induction us as [|x us IH]; simpl; intros Hn; [reflexivity|].
  inversion Hn as [|? ? Hx Hrest]; subst.
  destruct (User.hasId o x) eqn:Hox.
  - apply find_none_of. intros v Hv. unfold User.hasId in *.
    apply N.eqb_eq in Hox. apply N.eqb_neq. intros E. apply Hx.
    rewrite Hox, <- E. now apply in_map.
  - simpl. rewrite Hox. now apply IH.
Qed.

Lemma deleteUser_run (req : request) (w : world) (o : ObjectId) :
  castObjectId (params_id req) = Some o ->
  deleteUser req w
  = match find (User.hasId o) (users w) with
    | Some u =>
        (res_json (succeeded (Some "User deleted successfully") u),
         withUsers (User.removeFirst o (users w)) (logged CallFindByIdAndDelete w))
    | None =>
        (res_status_json 404 (failure "User not found"), logged CallFindByIdAndDelete w)
    end.
Proof.
  intros Hc. run. rewrite Hc. cbn [users logged]. destruct (find _ _); reflexivity.
Qed.

Lemma castObjectId_nonempty (id : string) (o : ObjectId) :
  castObjectId id = Some o -> id <> "".
Proof. intros H ->. discriminate. Qed.

(** X5. The delete of a stored User is answered 200 with the document
    that the identifier finds, and takes exactly that document out of
    the collection: what was stored is the removed document together
    with what is stored now. *)
Theorem deleteUser_removes_one
        (ctx : context) (req : request) (w : world) (o : ObjectId) (u : user) :
  castObjectId (params_id req) = Some o ->
  find (User.hasId o) (users w) = Some u ->
  exists w',
    app DELETE_users_id ctx req w
    = ({| status := 200; body := succeeded (Some "User deleted successfully") u |}, w')
    /\ _id u = o
    /\ Permutation (users w) (u :: users w')
    /\ List.length (users w) = S (List.length (users w')).
Proof.
  intros Hc Hf.
  exists (withUsers (User.removeFirst o (users w)) (logged CallFindByIdAndDelete w)).
  pose proof (removeFirst_perm o (users w) u Hf) as Hperm.
  split; [|split; [|split]].
  - unfold app, userRoutes. rewrite (deleteUser_run req w o Hc), Hf. reflexivity.
  - apply find_some in Hf. destruct Hf as [_ Hid]. now apply N.eqb_eq in Hid.
  - exact Hperm.
  - cbn [users withUsers]. apply Permutation_length in Hperm. exact Hperm.
Qed.

Lemma deleteUser_removes_one_witness :
  exists w',
    app DELETE_users_id ctx2 (delete joId) worldWithJoAndAl
    = ({| status := 200; body := succeeded (Some "User deleted successfully") joUser |}, w')
    /\ _id joUser = 1%N
    /\ Permutation (users worldWithJoAndAl) (joUser :: users w')
    /\ List.length (users worldWithJoAndAl) = S (List.length (users w')).
Proof.
  apply (deleteUser_removes_one ctx2 (delete joId) worldWithJoAndAl 1%N joUser).
  - reflexivity.
  - reflexivity.
Defined.

(** X6. In a collection without two documents of one identifier, a User
    that was deleted is gone: after the delete, a GET and a second DELETE
    with the same identifier are both answered 404. *)
Theorem deleted_user_is_not_found
        (ctx ctx' : context) (req : request) (w : world) (o : ObjectId) :
  castObjectId (params_id req) = Some o ->
  idsUnique (users w) ->
  let w' := snd (app DELETE_users_id ctx req w) in
  app GET_users ctx' (get (Some (params_id req))) w'
  = ({| status := 404; body := failure "User not found" |}, logged CallFindById w')
  /\ app DELETE_users_id ctx' req w'
     = ({| status := 404; body := failure "User not found" |},
        logged CallFindByIdAndDelete w').
Proof.
  intros Hc Hu w'.
  assert (Hgone : find (User.hasId o) (users w') = None).
  { subst w'. unfold app, userRoutes. rewrite (deleteUser_run req w o Hc).
    destruct (find (User.hasId o) (users w)) eqn:Hf; cbn [snd users withUsers logged].
    - now apply find_removeFirst_unique.
    - exact Hf. }
  split.
  - unfold app, userRoutes.
    rewrite (getUsers_one_run (get (Some (params_id req))) w' (params_id req) o eq_refl
               (castObjectId_nonempty _ _ Hc) Hc), Hgone.
    reflexivity.
  - unfold app, userRoutes. rewrite (deleteUser_run req w' o Hc), Hgone. reflexivity.
Qed.

Lemma deleted_user_is_not_found_witness :
  let w' := snd (app DELETE_users_id ctx2 (delete joId) worldWithJoAndAl) in
  app GET_users ctx1 (get (Some (params_id (delete joId)))) w'
  = ({| status := 404; body := failure "User not found" |}, logged CallFindById w')
  /\ app DELETE_users_id ctx1 (delete joId) w'
     = ({| status := 404; body := failure "User not found" |},
        logged CallFindByIdAndDelete w').
Proof.
  apply (deleted_user_is_not_found ctx2 ctx1 (delete joId) worldWithJoAndAl 1%N).
  - reflexivity.
  - unfold idsUnique. simpl. repeat constructor; simpl; intuition discriminate.
Defined.

(** X7. A GET whose query gives [id] as one string (or not at all) never
    hands out the document of another identifier: when its envelope
    carries one document, the request had an [id], the [id] reads as
    the [_id] of that document, and the document is in the collection.
    A query that makes [id] an object or an array ([?id[$ne]=...], [id]
    given twice) is no [request] of the embedding, and the statement
    says nothing about it. *)
Theorem getUsers_returns_the_requested_document
        (ctx : context) (req : request) (w : world) (u : user) :
  data (body (fst (app GET_users ctx req w))) = Some (One u) ->
  exists id,
    query_id req = Some id
    /\ castObjectId id = Some (_id u)
    /\ In u (users w).
Proof.
  unfold app, userRoutes. run. unfold errorHandler.
  destruct (query_id req) as [[|c id]|]; try discriminate.
  destruct (castObjectId (String c id)) as [o|] eqn:Hc; [|discriminate].
  cbn [users logged]. destruct (find (User.hasId o) (users w)) as [v|] eqn:Hf;
    [|discriminate].
  cbn. intros E. inversion E; subst v. exists (String c id).
  apply find_some in Hf. destruct Hf as [Hin Hid]. apply N.eqb_eq in Hid.
  split; [reflexivity|]. split; [congruence | exact Hin].
Qed.

Lemma getUsers_returns_the_requested_document_witness :
  exists id,
    query_id (get (Some joId)) = Some id
    /\ castObjectId id = Some (_id joUser)
    /\ In joUser (users worldWithJoAndAl).
Proof.
  apply (getUsers_returns_the_requested_document ctx2 (get (Some joId)) worldWithJoAndAl joUser).
  reflexivity.
Defined.

(** ** The order of the checks of an update *)

Lemma update_email_data (props : list (string * json)) (d : Zod.UserData) (p : string) :
  Zod.parse updateUserSchema (JObj props) = inr d ->
  getProp "email" props = Some (JStr p) ->
  exists c r, p = String c r /\ Zod.d_email d = Some (String c r).
Proof.
  intros Hp He. destruct (update_data_valid props d Hp) as (_ & Hd & _).
  destruct (Zod.d_email d) as [p'|]; [|congruence].
  destruct Hd as [Hg Hmail]. assert (p' = p) by congruence. subst p'.
  destruct p as [|c r]; [discriminate|]. now exists c, r.
Qed.

(** X8. An update whose payload passes the schema and carries an address
    that, in lower case, another document holds is answered 400 with the
    conflict message, whether or not a User has the identifier of the
    request; the only call on the model is the [findOne] of the check,
    and the collection is not changed. *)
Theorem updateUser_taken_email_conflict
        (ctx : context) (req : request) (w : world) (o : ObjectId)
        (props : list (string * json)) (p : string) (d : Zod.UserData) (v : user) :
  castObjectId (params_id req) = Some o ->
  req_body req = JObj props ->
  Zod.parse updateUserSchema (req_body req) = inr d ->
  getProp "email" props = Some (JStr p) ->
  In v (users w) ->
  email v = JS.toLowerCase p ->
  _id v <> o ->
  app PUT_users_id ctx req w
  = ({| status := 400; body := failure "Email already in use by another user" |},
     logged CallFindOne w).
Proof.
  intros Hc Hb Hp He Hin Hmail Hid.
  assert (Hp' := Hp). rewrite Hb in Hp'.
  destruct (update_email_data props d p Hp' He) as (c & r & -> & Hd).
  assert (Hf : exists x, find (User.matches (JS.toLowerCase (String c r)) (Some o)) (users w)
                         = Some x).
  { apply find_In with (x := v); [exact Hin|]. unfold User.matches, User.hasId.
    rewrite (proj2 (String.eqb_eq _ _) Hmail).
    rewrite (proj2 (N.eqb_neq _ _) Hid). reflexivity. }
  destruct Hf as [x Hx].
  unfold app, userRoutes, updateUser, tryCatch, zodParse, lift. unfold bind at 1.
  rewrite Hp. unfold bind at 1. rewrite Hd.
  unfold bind at 1, await at 1, mapError at 1.
  rewrite (findOne_excluding_run _ _ o w Hc), Hx. reflexivity.
Qed.

Lemma updateUser_taken_email_conflict_witness :
  app PUT_users_id ctx2 (put joId (JObj [("email", JStr "AL@b.com")])) worldWithJoAndAl
  = ({| status := 400; body := failure "Email already in use by another user" |},
     logged CallFindOne worldWithJoAndAl).
Proof.
  apply (updateUser_taken_email_conflict ctx2
           (put joId (JObj [("email", JStr "AL@b.com")])) worldWithJoAndAl 1%N
           [("email", JStr "AL@b.com")] "AL@b.com"
           {| Zod.d_name := None; Zod.d_email := Some "AL@b.com"; Zod.d_age := None |}
           alUser).
  - reflexivity.
  - reflexivity.
  - reflexivity.
  - reflexivity.
  - simpl. right. left. reflexivity.
  - reflexivity.
  - simpl. discriminate.
Defined.

Lemma findByIdAndUpdate_absent (ctx : context) (id : string) (d : Zod.UserData)
      (o : ObjectId) (w : world) :
  castObjectId id = Some o ->
  User.updateValidators (User.castData d) = [] ->
  find (User.hasId o) (users w) = None ->
  User.findByIdAndUpdate ctx id d w = (inr None, logged CallFindByIdAndUpdate w).
Proof.
  intros Hc Hv Hf. run. rewrite Hc, Hv. cbn [users logged]. rewrite Hf. reflexivity.
Qed.

Lemma users_afterCheck (d : Zod.UserData) (w : world) :
  users (afterCheck d w) = users w.
Proof. unfold afterCheck. destruct (Zod.d_email d) as [[|? ?]|]; reflexivity. Qed.

(** X9. An update whose payload would be applied (it passes the schema,
    no other document holds its address, its name is not blank) and
    whose identifier is well formed but is the identifier of no document
    is answered 404 with "User not found", and the collection is not
    changed. *)
Theorem updateUser_unknown_id_404
        (ctx : context) (req : request) (w : world) (o : ObjectId)
        (props : list (string * json)) (d : Zod.UserData) :
  castObjectId (params_id req) = Some o ->
  find (User.hasId o) (users w) = None ->
  req_body req = JObj props ->
  Zod.parse updateUserSchema (req_body req) = inr d ->
  (forall p, getProp "email" props = Some (JStr p) ->
             emailFreeFor o (JS.toLowerCase p) (users w)) ->
  (forall n, getProp "name" props = Some (JStr n) -> notBlank n) ->
  fst (app PUT_users_id ctx req w)
  = {| status := 404; body := failure "User not found" |}
  /\ users (snd (app PUT_users_id ctx req w)) = users w.
Proof.
  intros Hc Hf Hb Hp Hfree Hblank.
  assert (Hp' := Hp). rewrite Hb in Hp'.
  destruct (update_data_valid props d Hp') as (_ & He & _).
  pose proof (update_validators_pass props d Hp' Hblank) as Hval.
  assert (Hfree' : forall p, Zod.d_email d = Some p ->
                             emailFreeFor o (JS.toLowerCase p) (users w)).
  { intros p E. rewrite E in He. apply Hfree. tauto. }
  pose proof (updateUser_proceeds ctx req w d o Hp Hc Hfree') as Hrun.
  rewrite (findByIdAndUpdate_absent ctx (params_id req) d o (afterCheck d w) Hc Hval)
    in Hrun by (rewrite users_afterCheck; exact Hf).
  unfold app, userRoutes. rewrite Hrun. cbn [fst snd res_status_json users logged].
  split; [reflexivity | apply users_afterCheck].
Qed.

Lemma updateUser_unknown_id_404_witness :
  fst (app PUT_users_id ctx2 (put "0000000000000000000000ff" (JObj [("age", JNum 31)]))
         worldWithJoAndAl)
  = {| status := 404; body := failure "User not found" |}
  /\ users (snd (app PUT_users_id ctx2
                   (put "0000000000000000000000ff" (JObj [("age", JNum 31)]))
                   worldWithJoAndAl))
     = users worldWithJoAndAl.
Proof.
  apply (updateUser_unknown_id_404 ctx2
           (put "0000000000000000000000ff" (JObj [("age", JNum 31)]))
           worldWithJoAndAl 255%N [("age", JNum 31)]
           {| Zod.d_name := None; Zod.d_email := None; Zod.d_age := Some 31%Q |}).
  - reflexivity.
  - reflexivity.
  - reflexivity.
  - reflexivity.
  - intros p Hp. simpl in Hp. discriminate Hp.
  - intros n Hn. simpl in Hn. discriminate Hn.
Defined.

(** X10. An update whose identifier is not well formed and whose payload
    passes the schema is answered 500 with the message of the cast
    error; its stack is the one line added to the log, and the
    collection is not changed.  (A payload that fails the schema is
    answered 400 before the identifier is looked at.) *)
Theorem updateUser_malformed_id_500
        (ctx : context) (req : request) (w : world) (d : Zod.UserData) :
  castObjectId (params_id req) = None ->
  Zod.parse updateUserSchema (req_body req) = inr d ->
  let err := Mongoose.CastError (params_id req) "_id" "User" in
  fst (app PUT_users_id ctx req w) = {| status := 500; body := failure (e_message err) |}
  /\ users (snd (app PUT_users_id ctx req w)) = users w
  /\ console (snd (app PUT_users_id ctx req w)) = (console w ++ [e_stack err])%list.
Proof.
  intros Hc Hp err. subst err. run. unfold errorHandler. rewrite Hp.
  destruct (Zod.d_email d) as [[|c p]|];
    cbn [User.f_id_ne User.f_email]; rewrite Hc; repeat split.
Qed.

Lemma updateUser_malformed_id_500_witness :
  let err := Mongoose.CastError "bogus" "_id" "User" in
  fst (app PUT_users_id ctx2 (put "bogus" (JObj [("age", JNum 31)])) worldWithJo)
  = {| status := 500; body := failure (e_message err) |}
  /\ users (snd (app PUT_users_id ctx2 (put "bogus" (JObj [("age", JNum 31)])) worldWithJo))
     = users worldWithJo
  /\ console (snd (app PUT_users_id ctx2 (put "bogus" (JObj [("age", JNum 31)])) worldWithJo))
     = (console worldWithJo ++ [e_stack err])%list.
Proof.
  apply (updateUser_malformed_id_500 ctx2 (put "bogus" (JObj [("age", JNum 31)]))
           worldWithJo
           {| Zod.d_name := None; Zod.d_email := None; Zod.d_age := Some 31%Q |}).
  - reflexivity.
  - reflexivity.
Defined.



(** ** The e-mail shape does not depend on letter case *)

Lemma classes_lowerChar (c : ascii) :
  Zod.isAlpha (JS.lowerChar c) = Zod.isAlpha c
  /\ Zod.isAlnum (JS.lowerChar c) = Zod.isAlnum c
  /\ Zod.localChar (JS.lowerChar c) = Zod.localChar c
  /\ Zod.localLast (JS.lowerChar c) = Zod.localLast c
  /\ Zod.labelChar (JS.lowerChar c) = Zod.labelChar c
  /\ Ascii.eqb (JS.lowerChar c) "@" = Ascii.eqb c "@"
  /\ Ascii.eqb (JS.lowerChar c) "." = Ascii.eqb c ".".
Proof. destruct c as [[] [] [] [] [] [] [] []]; vm_compute; repeat split. Qed.

Lemma chars_toLowerCase (s : string) :
  list_ascii_of_string (JS.toLowerCase s) = map JS.lowerChar (list_ascii_of_string s).
Proof. induction s as [|c s IH]; simpl; [reflexivity|]. now rewrite IH. Qed.

Lemma forallb_lower (P : ascii -> bool) (l : list ascii) :
  (forall c, P (JS.lowerChar c) = P c) ->
  forallb P (map JS.lowerChar l) = forallb P l.
Proof. intros H. induction l as [|c l IH]; simpl; [reflexivity|]. now rewrite H, IH. Qed.

Lemma splitOn_lower (sep : ascii) (l : list ascii) :
  (forall c, Ascii.eqb (JS.lowerChar c) sep = Ascii.eqb c sep) ->
  Zod.splitOn sep (map JS.lowerChar l) = map (map JS.lowerChar) (Zod.splitOn sep l).
Proof.
  intros H. induction l as [|c l IH]; simpl; [reflexivity|].
  rewrite H, IH. destruct (Ascii.eqb c sep); [reflexivity|].
  destruct (Zod.splitOn sep l); reflexivity.
Qed.

Lemma hasDotDot_lower (l : list ascii) :
  Zod.hasDotDot (map JS.lowerChar l) = Zod.hasDotDot l.
Proof.
  induction l as [|c l IH]; [reflexivity|].
  destruct l as [|d l]; [reflexivity|].
  change (Zod.hasDotDot (map JS.lowerChar (c :: d :: l)))
    with ((Ascii.eqb (JS.lowerChar c) "." && Ascii.eqb (JS.lowerChar d) ".")
          || Zod.hasDotDot (map JS.lowerChar (d :: l)))%bool.
  rewrite IH.
  rewrite (proj2 (proj2 (proj2 (proj2 (proj2 (proj2 (classes_lowerChar c))))))).
  rewrite (proj2 (proj2 (proj2 (proj2 (proj2 (proj2 (classes_lowerChar d))))))).
  reflexivity.
Qed.

Lemma isLabel_lower (l : list ascii) :
  Zod.isLabel (map JS.lowerChar l) = Zod.isLabel l.
Proof.
  destruct l as [|c l]; [reflexivity|]. simpl.
  rewrite (proj1 (proj2 (classes_lowerChar c))).
  rewrite forallb_lower; [reflexivity|]. intros x. apply classes_lowerChar.
Qed.

Lemma isDomain_lower (d : list ascii) :
  Zod.isDomain (map JS.lowerChar d) = Zod.isDomain d.
Proof.
  unfold Zod.isDomain.
  rewrite splitOn_lower by (intros c; apply classes_lowerChar).
  rewrite <- map_rev.
  destruct (rev (Zod.splitOn "." d)) as [|tld [|l ls]]; try reflexivity.
  cbn [map]. unfold Zod.isTld. rewrite length_map.
  rewrite forallb_lower by (intros c; apply classes_lowerChar).
  f_equal. cbn [forallb]. rewrite isLabel_lower. f_equal.
  induction ls as [|x ls IH]; [reflexivity|]. cbn [map forallb].
  now rewrite isLabel_lower, IH.
Qed.

Lemma isLocal_lower (l : list ascii) :
  Zod.isLocal (map JS.lowerChar l) = Zod.isLocal l.
Proof.
  unfold Zod.isLocal. rewrite <- map_rev.
  destruct (rev l) as [|c r]; [reflexivity|]. cbn [map].
  rewrite (proj1 (proj2 (proj2 (proj2 (classes_lowerChar c))))).
  rewrite forallb_lower; [reflexivity|]. intros x. apply classes_lowerChar.
Qed.

Lemma isEmail_lower (s : string) :
  Zod.isEmail (JS.toLowerCase s) = Zod.isEmail s.
Proof.
  unfold Zod.isEmail. cbv zeta. rewrite chars_toLowerCase.
  rewrite hasDotDot_lower.
  rewrite splitOn_lower by (intros c; apply classes_lowerChar).
  f_equal; [f_equal|].
  - destruct (list_ascii_of_string s) as [|c l]; [reflexivity|]. cbn [map].
    now rewrite (proj2 (proj2 (proj2 (proj2 (proj2 (proj2 (classes_lowerChar c))))))).
  - destruct (Zod.splitOn "@" (list_ascii_of_string s)) as [|l [|d [|? ?]]];
      try reflexivity.
    cbn [map]. now rewrite isLocal_lower, isDomain_lower.
Qed.

Lemma splitOn_Forall (P : ascii -> Prop) (sep : ascii) (s : list ascii) :
  P sep -> Forall (Forall P) (Zod.splitOn sep s) -> Forall P s.
Proof.
  intros Hsep. induction s as [|c r IH]; intros H; [constructor|].
  cbn [Zod.splitOn] in H. destruct (Ascii.eqb c sep) eqn:E.
  - apply Ascii.eqb_eq in E. subst c. inversion H; subst. constructor; auto.
  - destruct (Zod.splitOn sep r) as [|p ps].
    + inversion H as [|? ? Hc _]; subst. inversion Hc; subst.
      constructor; [assumption|]. apply IH. constructor.
    + inversion H as [|? ? Hc Hps]; subst. inversion Hc; subst.
      constructor; [assumption|]. apply IH. constructor; assumption.
Qed.

Lemma classes_isAscii (c : ascii) :
  (Zod.localChar c = true -> isAscii c = true)
  /\ (Zod.localLast c = true -> isAscii c = true)
  /\ (Zod.labelChar c = true -> isAscii c = true)
  /\ (Zod.isAlnum c = true -> isAscii c = true)
  /\ (Zod.isAlpha c = true -> isAscii c = true).
Proof.
  destruct c as [[] [] [] [] [] [] [] []]; vm_compute; repeat split; congruence.
Qed.

Lemma forallb_isAscii (f : ascii -> bool) (l : list ascii) :
  (forall c, f c = true -> isAscii c = true) ->
  forallb f l = true -> Forall (fun c => isAscii c = true) l.
Proof.
  intros Hf H. apply Forall_forall. intros c Hc.
  apply Hf. rewrite forallb_forall in H. now apply H.
Qed.

Lemma isLocal_isAscii (l : list ascii) :
  Zod.isLocal l = true -> Forall (fun c => isAscii c = true) l.
Proof.
  unfold Zod.isLocal. intros H. rewrite <- (rev_involutive l). apply Forall_rev.
  destruct (rev l) as [|c r]; [discriminate|].
  apply andb_true_iff in H. destruct H as [Hc Hr]. constructor.
  - revert Hc. apply classes_isAscii.
  - apply (forallb_isAscii Zod.localChar); [|exact Hr]. intros x. apply classes_isAscii.
Qed.

Lemma isLabel_isAscii (l : list ascii) :
  Zod.isLabel l = true -> Forall (fun c => isAscii c = true) l.
Proof.
  destruct l as [|c r]; [discriminate|]. cbn [Zod.isLabel]. intros H.
  apply andb_true_iff in H. destruct H as [Hc Hr]. constructor.
  - revert Hc. apply classes_isAscii.
  - apply (forallb_isAscii Zod.labelChar); [|exact Hr]. intros x. apply classes_isAscii.
Qed.

Lemma isDomain_isAscii (d : list ascii) :
  Zod.isDomain d = true -> Forall (fun c => isAscii c = true) d.
Proof.
  unfold Zod.isDomain. intros H.
  apply (splitOn_Forall _ "."%char); [reflexivity|].
  rewrite <- (rev_involutive (Zod.splitOn "." d)). apply Forall_rev.
  destruct (rev (Zod.splitOn "." d)) as [|tld [|l labels]]; try discriminate.
  apply andb_true_iff in H. destruct H as [Ht Hl]. constructor.
  - unfold Zod.isTld in Ht. apply andb_true_iff in Ht. destruct Ht as [_ Ht].
    apply (forallb_isAscii Zod.isAlpha); [|exact Ht]. intros x. apply classes_isAscii.
  - apply Forall_forall. intros x Hx. apply isLabel_isAscii.
    rewrite forallb_forall in Hl. now apply Hl.
Qed.

(** X12. An address that the e-mail test of the schemas accepts is made
    of code units below 128 only (the test is the regular expression
    without the [u] flag, whose classes match no character outside
    ASCII, with or without [i]); it is still accepted after
    [toLowerCase], and [toLowerCase] leaves its length as it is.  So the
    lower-casing of the model never turns an address that the schema
    accepted into one that it would refuse. *)
Theorem accepted_email_is_ascii_and_stays_accepted (s : string) :
  Zod.isEmail s = true ->
  (forall c, In c (list_ascii_of_string s) -> (JS.code c < 128)%nat)
  /\ Zod.isEmail (JS.toLowerCase s) = true
  /\ String.length (JS.toLowerCase s) = String.length s.
Proof.
  intros H. split; [|split].
  - assert (F : Forall (fun c => isAscii c = true) (list_ascii_of_string s)).
    { unfold Zod.isEmail in H. cbv zeta in H.
      apply andb_true_iff in H. destruct H as [_ H].
      apply (splitOn_Forall _ "@"%char); [reflexivity|].
      destruct (Zod.splitOn "@" (list_ascii_of_string s)) as [|l [|d [|? ?]]];
        try discriminate.
      apply andb_true_iff in H. destruct H as [Hl Hd].
      constructor; [now apply isLocal_isAscii|].
      constructor; [now apply isDomain_isAscii | constructor]. }
    intros c Hc. rewrite Forall_forall in F. apply F in Hc.
    unfold isAscii in Hc. now apply Nat.ltb_lt in Hc.
  - rewrite isEmail_lower. exact H.
  - apply toLowerCase_length.
Qed.

Lemma accepted_email_is_ascii_and_stays_accepted_witness :
  (forall c, In c (list_ascii_of_string "A@B.com") -> (JS.code c < 128)%nat)
  /\ Zod.isEmail (JS.toLowerCase "A@B.com") = true
  /\ String.length (JS.toLowerCase "A@B.com") = String.length "A@B.com".
Proof.
  apply (accepted_email_is_ascii_and_stays_accepted "A@B.com"). reflexivity.
Defined.

(** ** What is stored *)

Lemma parse_bounded (o : Zod.ZodObject) (b : json) (d : Zod.UserData) :
  o = createUserSchema \/ o = updateUserSchema ->
  Zod.parse o b = inr d -> dataBounded d.
Proof.
  intros Ho H. apply parse_ok in H. destruct H as (props & _ & Hn & He & Ha).
  apply parseString_ok in Hn, He. apply parseNumber_ok in Ha.
  assert (Hcn : Zod.s_checks (Zod.sh_name o) = Zod.s_checks (Zod.sh_name createUserSchema))
    by (destruct Ho; subst o; reflexivity).
  assert (Hce : Zod.s_checks (Zod.sh_email o) = Zod.s_checks (Zod.sh_email createUserSchema))
    by (destruct Ho; subst o; reflexivity).
  assert (Hca : Zod.n_checks (Zod.sh_age o) = Zod.n_checks (Zod.sh_age createUserSchema))
    by (destruct Ho; subst o; reflexivity).
  rewrite Hcn in Hn. rewrite Hce in He. rewrite Hca in Ha.
  split; [|split].
  - intros n E. destruct Hn as [(_ & Hn & _) | (s & _ & Hs & Hn)]; [congruence|].
    apply name_checks in Hn. congruence.
  - intros p E. destruct He as [(_ & He & _) | (s & _ & Hs & He)]; [congruence|].
    apply email_checks in He. congruence.
  - intros q E. destruct Ha as [(_ & Ha & _) | (s & _ & Hs & Ha)]; [congruence|].
    apply age_checks in Ha. destruct Ha as (z & Hz & Hr). exists z.
    split; [|exact Hr]. assert (q = s) by congruence. now subst q.
Qed.

Lemma trimStart_length (s : string) :
  (String.length (JS.trimStart s) <= String.length s)%nat.
Proof.
  induction s as [|c s IH]; simpl; [lia|]. destruct (JS.isSpace c); simpl; lia.
Qed.

Lemma trimEnd_length (s : string) :
  (String.length (JS.trimEnd s) <= String.length s)%nat.
Proof.
  induction s as [|c s IH]; simpl; [lia|].
  destruct (JS.trimEnd s) as [|d r]; [destruct (JS.isSpace c); simpl; lia|].
  simpl in *. lia.
Qed.

Lemma trim_length (s : string) : (String.length (JS.trim s) <= String.length s)%nat.
Proof.
  unfold JS.trim. pose proof (trimEnd_length (JS.trimStart s)).
  pose proof (trimStart_length s). lia.
Qed.

Lemma checkRequired_inv (p : Mongoose.SchemaString) (path : string) (v : option string) :
  Mongoose.required p = true ->
  Mongoose.checkRequired p path v = [] ->
  exists s, v = Some s /\ (1 <= String.length s)%nat.
Proof.
  intros Hr. unfold Mongoose.checkRequired. rewrite Hr.
  destruct v as [[|c s]|]; try discriminate. intros _.
  exists (String c s). split; [reflexivity|]. simpl. lia.
Qed.

(** The document that [User.create] builds from data of a schema that
    passed the validators of the model. *)
Lemma created_fieldsValid (ctx : context) (d : Zod.UserData) :
  dataBounded d ->
  (Mongoose.checkRequired (Mongoose.p_name userSchema) "name"
     (Zod.d_name (User.castData d))
   ++ Mongoose.checkRequired (Mongoose.p_email userSchema) "email"
        (Zod.d_email (User.castData d))
   ++ Mongoose.checkMin (Mongoose.p_age userSchema) "age"
        (Zod.d_age (User.castData d)))%list = [] ->
  fieldsValid {| _id := newId ctx;
                 name := User.orEmpty (Zod.d_name (User.castData d));
                 email := User.orEmpty (Zod.d_email (User.castData d));
                 age := Zod.d_age (User.castData d);
                 createdAt := now ctx; updatedAt := now ctx |}.
Proof.
  intros (Bn & Be & Ba) Hv.
  apply app_eq_nil in Hv. destruct Hv as [Hn Hv].
  apply app_eq_nil in Hv. destruct Hv as [He _].
  apply checkRequired_inv in Hn; [|reflexivity].
  apply checkRequired_inv in He; [|reflexivity].
  destruct Hn as (n' & Hn & Hln). destruct He as (p' & He & _).
  unfold User.castData in *. cbn [Zod.d_name Zod.d_email Zod.d_age] in *.
  destruct (Zod.d_name d) as [n|]; [|discriminate].
  destruct (Zod.d_email d) as [p|]; [|discriminate].
  cbn [option_map User.orEmpty] in *. rewrite name_setter in *. rewrite email_setter in *.
  inversion Hn; subst n'. unfold fieldsValid. cbn [name email age].
  split; [|split].
  - pose proof (trim_length n). pose proof (Bn n eq_refl). lia.
  - rewrite isEmail_lower. now apply Be.
  - destruct (Zod.d_age d) as [q|]; [now apply Ba | exact I].
Qed.

Lemma applyUpdate_fieldsValid (ctx : context) (d : Zod.UserData) (x : user) :
  dataBounded d ->
  User.updateValidators (User.castData d) = [] ->
  fieldsValid x ->
  fieldsValid (User.applyUpdate ctx (User.castData d) x).
Proof.
  intros (Bn & Be & Ba) Hv (Hxn & Hxe & Hxa).
  unfold User.updateValidators in Hv.
  apply app_eq_nil in Hv. destruct Hv as [Hn _].
  unfold User.applyUpdate, User.castData, fieldsValid in *.
  cbn [name email age Zod.d_name Zod.d_email Zod.d_age] in *.
  split; [|split].
  - destruct (Zod.d_name d) as [n|]; cbn [option_map User.orElse] in *; [|exact Hxn].
    apply checkRequired_inv in Hn; [|reflexivity].
    destruct Hn as (s & Hs & Hl). inversion Hs; subst s. rewrite name_setter in *.
    pose proof (trim_length n). pose proof (Bn n eq_refl). lia.
  - destruct (Zod.d_email d) as [p|]; cbn [option_map User.orElse]; [|exact Hxe].
    rewrite email_setter, isEmail_lower. now apply Be.
  - destruct (Zod.d_age d) as [q|]; [now apply Ba | exact Hxa].
Qed.

Lemma createUser_keeps_fieldsValid (ctx : context) (req : request) (w : world) :
  Forall fieldsValid (users w) ->
  Forall fieldsValid (users (snd (app POST_users ctx req w))).
Proof.
  intros H. run.
  destruct (Zod.parse createUserSchema (req_body req)) as [issues|d] eqn:Hp; [exact H|].
  pose proof (parse_bounded _ _ _ (or_introl eq_refl) Hp) as Hb.
  cbn [User.f_id_ne User.f_email users logged].
  destruct (match Zod.d_email d with Some _ => _ | None => _ end); [exact H|].
  destruct (_ ++ _)%list eqn:Hv; [|exact H].
  cbn [snd users withUsers logged]. apply Forall_app. split; [exact H|].
  constructor; [|constructor]. now apply created_fieldsValid.
Qed.

Lemma updateUser_keeps_fieldsValid (ctx : context) (req : request) (w : world) :
  Forall fieldsValid (users w) ->
  Forall fieldsValid (users (snd (app PUT_users_id ctx req w))).
Proof.
  intros H. run.
  destruct (Zod.parse updateUserSchema (req_body req)) as [issues|d] eqn:Hp; [exact H|].
  pose proof (parse_bounded _ _ _ (or_intror eq_refl) Hp) as Hb.
  assert (Hup : forall o, User.updateValidators (User.castData d) = [] ->
                  Forall fieldsValid
                    (User.updateFirst o (User.applyUpdate ctx (User.castData d)) (users w))).
  { intros o Hv. apply Forall_forall. intros v Hin.
    apply updateFirst_In in Hin. rewrite Forall_forall in H.
    destruct Hin as [Hin | (x & Hx & _ & ->)]; [now apply H|].
    apply applyUpdate_fieldsValid; auto. }
  destruct (Zod.d_email d) as [[|c p]|].
  - destruct (castObjectId _) as [o|]; [|exact H].
    destruct (User.updateValidators _) eqn:Hv; [|exact H].
    cbn [users logged]. destruct (find _ _); [|exact H]. now apply Hup.
  - cbn [User.f_id_ne User.f_email]. destruct (castObjectId _) as [o|]; [|exact H].
    cbn [users logged]. destruct (find (User.matches _ _) _); [exact H|].
    destruct (User.updateValidators _) eqn:Hv; [|exact H].
    cbn [users logged]. destruct (find _ _); [|exact H]. now apply Hup.
  - destruct (castObjectId _) as [o|]; [|exact H].
    destruct (User.updateValidators _) eqn:Hv; [|exact H].
    cbn [users logged]. destruct (find _ _); [|exact H]. now apply Hup.
Qed.

Lemma deleteUser_keeps_fieldsValid (ctx : context) (req : request) (w : world) :
  Forall fieldsValid (users w) ->
  Forall fieldsValid (users (snd (app DELETE_users_id ctx req w))).
Proof.
  intros H. run. destruct (castObjectId _) as [o|]; [|exact H].
  cbn [users logged]. destruct (find _ _); [|exact H].
  cbn [snd users withUsers]. rewrite Forall_forall in *.
  intros v Hv. apply H. eapply removeFirst_In. exact Hv.
Qed.

(** X13. In every world that requests lead to from the empty collection,
    every stored address is in lower case, and two documents whose
    addresses differ at most in letter case have the same identifier. *)
Theorem reachable_emails_unique_up_to_case (w : world) :
  reachable w ->
  (forall u, In u (users w) -> JS.toLowerCase (email u) = email u)
  /\ (forall u v, In u (users w) -> In v (users w) ->
                  JS.sameUpToCase (email u) (email v) -> _id u = _id v).
Proof.
  intros H. destruct (reachable_storeInvariant w H) as [Hn Hu].
  split; [exact Hn|]. intros u v Hin Hiv Hc. apply Hu; auto.
  unfold JS.sameUpToCase in Hc. rewrite (Hn u Hin), (Hn v Hiv) in Hc. exact Hc.
Qed.

Lemma reachable_emails_unique_up_to_case_witness :
  (forall u, In u (users (snd (app POST_users ctx1 (post jo) emptyWorld))) ->
             JS.toLowerCase (email u) = email u)
  /\ (forall u v, In u (users (snd (app POST_users ctx1 (post jo) emptyWorld))) ->
                  In v (users (snd (app POST_users ctx1 (post jo) emptyWorld))) ->
                  JS.sameUpToCase (email u) (email v) -> _id u = _id v).
Proof.
  apply (reachable_emails_unique_up_to_case (snd (app POST_users ctx1 (post jo) emptyWorld))).
  apply reach_request. apply reach_empty.
Defined.

(** X14. In every world that requests lead to from the empty collection,
    every stored document has a name of 1 to 50 characters, an address
    of e-mail shape, and an age, if any, that is an integer from 0 to
    150. *)
Theorem reachable_fields_valid (w : world) :
  reachable w -> Forall fieldsValid (users w).
Proof.
  induction 1 as [|r ctx req w _ IH]; [constructor|].
  destruct r.
  - now rewrite getUsers_keeps_users.
  - now apply createUser_keeps_fieldsValid.
  - now apply updateUser_keeps_fieldsValid.
  - now apply deleteUser_keeps_fieldsValid.
Qed.

Lemma reachable_fields_valid_witness :
  Forall fieldsValid (users (snd (app POST_users ctx1 (post jo) emptyWorld))).
Proof.
  apply (reachable_fields_valid (snd (app POST_users ctx1 (post jo) emptyWorld))).
  apply reach_request. apply reach_empty.
Defined.

(** The lower bound of the name is 1 and not the 2 of the schema: the
    schema counts the characters as sent, the model trims them. *)
Example stored_name_of_one_character :
  users (snd (app POST_users ctx1
                (post (JObj [("name", JStr " J"); ("email", JStr "j@b.com")])) emptyWorld))
  = [{| _id := 1%N; name := "J"; email := "j@b.com"; age := None;
        createdAt := 1000; updatedAt := 1000 |}].
Proof. reflexivity. Qed.

(** ** The update schema and the issues *)

(** X15. The update schema accepts a payload exactly when it is an object
    in which each of [name], [email] and [age] is either not there or
    passes the test the create schema has for it; the empty object is
    accepted. *)
Theorem updateUserSchema_accepts_exactly (b : json) :
  (exists d, Zod.parse updateUserSchema b = inr d)
  <->
  exists props,
    b = JObj props
    /\ (getProp "name" props = None
        \/ exists s, getProp "name" props = Some (JStr s)
                     /\ (2 <= String.length s <= 50)%nat)
    /\ (getProp "email" props = None
        \/ exists e, getProp "email" props = Some (JStr e) /\ Zod.isEmail e = true)
    /\ (getProp "age" props = None
        \/ exists q z, getProp "age" props = Some (JNum q)
                       /\ q == inject_Z z /\ 0 <= z <= 150).
Proof.
  split.
  - intros [d H]. apply parse_ok in H. destruct H as (props & -> & Hn & He & Ha).
    exists props. split; [reflexivity|].
    apply parseString_ok in Hn, He. apply parseNumber_ok in Ha.
    change (Zod.s_checks (Zod.sh_name updateUserSchema))
      with (Zod.s_checks (Zod.sh_name createUserSchema)) in Hn.
    change (Zod.s_checks (Zod.sh_email updateUserSchema))
      with (Zod.s_checks (Zod.sh_email createUserSchema)) in He.
    change (Zod.n_checks (Zod.sh_age updateUserSchema))
      with (Zod.n_checks (Zod.sh_age createUserSchema)) in Ha.
    split; [|split].
    + destruct Hn as [(Hn & _) | (s & Hs & _ & Hn)]; [now left|].
      right. exists s. split; [exact Hs|]. now apply name_checks in Hn.
    + destruct He as [(He & _) | (e & Hs & _ & He)]; [now left|].
      right. exists e. split; [exact Hs|]. now apply email_checks in He.
    + destruct Ha as [(Ha & _) | (q & Hq & _ & Ha)]; [now left|].
      right. apply age_checks in Ha. destruct Ha as (z & Hz & Hr). now exists q, z.
  - intros (props & -> & Hn & He & Ha).
    assert (Rn : exists n, Zod.parseString (Zod.sh_name updateUserSchema) ["name"]
                             (getProp "name" props) = inr n).
    { destruct Hn as [-> | (s & -> & Hl)]; [now exists None|].
      exists (Some s). apply parseString_accept.
      change (Zod.s_checks (Zod.sh_name updateUserSchema))
        with (Zod.s_checks (Zod.sh_name createUserSchema)).
      now apply name_checks. }
    assert (Re : exists e, Zod.parseString (Zod.sh_email updateUserSchema) ["email"]
                             (getProp "email" props) = inr e).
    { destruct He as [-> | (s & -> & Hl)]; [now exists None|].
      exists (Some s). apply parseString_accept.
      change (Zod.s_checks (Zod.sh_email updateUserSchema))
        with (Zod.s_checks (Zod.sh_email createUserSchema)).
      now apply email_checks. }
    assert (Ra : exists a, Zod.parseNumber (Zod.sh_age updateUserSchema) ["age"]
                             (getProp "age" props) = inr a).
    { destruct Ha as [-> | (q & z & -> & Hz & Hr)]; [now exists None|].
      exists (Some q). apply parseNumber_accept.
      change (Zod.n_checks (Zod.sh_age updateUserSchema))
        with (Zod.n_checks (Zod.sh_age createUserSchema)).
      apply age_checks. now exists z. }
    destruct Rn as [n Rn], Re as [e Re], Ra as [a Ra].
    exists {| Zod.d_name := n; Zod.d_email := e; Zod.d_age := a |}.
    apply parse_ok. exists props. cbn [Zod.d_name Zod.d_email Zod.d_age]. auto.
Qed.

Lemma parseString_partial (z : Zod.ZodString) (p : list string) (v : option json)
      (r : option string) :
  Zod.parseString z p v = inr r -> Zod.parseString (Zod.optionalS z) p v = inr r.
Proof.
  unfold Zod.parseString. cbn [Zod.s_checks Zod.s_optional Zod.optionalS].
  destruct v as [[| | |s| |]|]; try discriminate; try (intros H; exact H).
  destruct (Zod.s_optional z); [intros H; exact H | discriminate].
Qed.

Lemma parseNumber_partial (z : Zod.ZodNumber) (p : list string) (v : option json)
      (r : option Q) :
  Zod.parseNumber z p v = inr r -> Zod.parseNumber (Zod.optional z) p v = inr r.
Proof.
  unfold Zod.parseNumber. cbn [Zod.n_checks Zod.n_optional Zod.optional].
  destruct v as [[| |q| | |]|]; try discriminate; try (intros H; exact H).
  destruct (Zod.n_optional z); [intros H; exact H | discriminate].
Qed.

(** X16. [partial()] only relaxes: whatever a schema accepts, its partial
    version accepts with the same data.  So every payload that the create
    schema accepts is accepted, with the same data, by the update schema. *)
Theorem partial_accepts_what_the_schema_accepts
        (o : Zod.ZodObject) (b : json) (d : Zod.UserData) :
  Zod.parse o b = inr d ->
  Zod.parse (Zod.partial o) b = inr d
  /\ (o = createUserSchema -> Zod.parse updateUserSchema b = inr d).
Proof.
  intros H.
  assert (Hp : Zod.parse (Zod.partial o) b = inr d).
  { apply parse_ok in H. destruct H as (props & -> & Hn & He & Ha).
    apply parse_ok. exists props. cbn [Zod.partial Zod.sh_name Zod.sh_email Zod.sh_age].
    auto using parseString_partial, parseNumber_partial. }
  split; [exact Hp|]. intros ->. exact Hp.
Qed.

Lemma partial_accepts_what_the_schema_accepts_witness :
  Zod.parse (Zod.partial createUserSchema) jo = inr joData
  /\ (createUserSchema = createUserSchema -> Zod.parse updateUserSchema jo = inr joData).
Proof.
  apply (partial_accepts_what_the_schema_accepts createUserSchema jo joData).
  reflexivity.
Defined.

Lemma checkString_path (p : list string) (s : string) (checks : list Zod.StringCheck) :
  Forall (fun i => Zod.path i = p) (flat_map (Zod.checkString p s) checks).
Proof.
  induction checks as [|c cs IH]; simpl; [constructor|].
  apply Forall_app. split; [|exact IH].
  destruct c; simpl;
    match goal with |- context [if ?b then _ else _] => destruct b end;
    repeat constructor.
Qed.

Lemma checkNumber_path (p : list string) (q : Q) (checks : list Zod.NumberCheck) :
  Forall (fun i => Zod.path i = p) (flat_map (Zod.checkNumber p q) checks).
Proof.
  induction checks as [|c cs IH]; simpl; [constructor|].
  apply Forall_app. split; [|exact IH].
  destruct c; simpl;
    match goal with |- context [if ?b then _ else _] => destruct b end;
    repeat constructor.
Qed.

Lemma parseString_issues (z : Zod.ZodString) (p : list string) (v : option json)
      (l : list Zod.ZodIssue) :
  Zod.parseString z p v = inl l -> l <> [] /\ Forall (fun i => Zod.path i = p) l.
Proof.
  unfold Zod.parseString.
  destruct v as [[| | |s| |]|];
    try (intros H; inversion H; split; [discriminate | repeat constructor]).
  - pose proof (checkString_path p s (Zod.s_checks z)) as Hf.
    destruct (flat_map _ _); [discriminate|].
    intros H; inversion H; subst. split; [discriminate | exact Hf].
  - destruct (Zod.s_optional z); [discriminate|].
    intros H; inversion H; split; [discriminate | repeat constructor].
Qed.

Lemma parseNumber_issues (z : Zod.ZodNumber) (p : list string) (v : option json)
      (l : list Zod.ZodIssue) :
  Zod.parseNumber z p v = inl l -> l <> [] /\ Forall (fun i => Zod.path i = p) l.
Proof.
  unfold Zod.parseNumber.
  destruct v as [[| |q| | |]|];
    try (intros H; inversion H; split; [discriminate | repeat constructor]).
  - pose proof (checkNumber_path p q (Zod.n_checks z)) as Hf.
    destruct (flat_map _ _); [discriminate|].
    intros H; inversion H; subst. split; [discriminate | exact Hf].
  - destruct (Zod.n_optional z); [discriminate|].
    intros H; inversion H; split; [discriminate | repeat constructor].
Qed.

Lemma issuesOf_about {A} (key : string) (r : list Zod.ZodIssue + A) :
  (forall l, r = inl l -> l <> [] /\ Forall (fun i => Zod.path i = [key]) l) ->
  Forall (about key) (Zod.issuesOf r)
  /\ ((exists i, In i (Zod.issuesOf r)) <-> exists l, r = inl l).
Proof.
  intros H. destruct r as [l|a]; cbn [Zod.issuesOf].
  - destruct (H l eq_refl) as [Hne Hf]. split; [exact Hf|].
    split; [now exists l|]. intros _. destruct l as [|i l]; [congruence|].
    exists i. now left.
  - split; [constructor|]. split; [intros [i []] | intros [l Hl]; discriminate].
Qed.

(** X17. When a schema refuses an object, the issues it reports are those
    of all the properties, not of the first one that fails: every issue
    is about [name], [email] or [age], and there is an issue about a
    property exactly when that property does not pass on its own. *)
Theorem parse_reports_every_failing_property
        (o : Zod.ZodObject) (props : list (string * json)) (issues : list Zod.ZodIssue) :
  Zod.parse o (JObj props) = inl issues ->
  (forall i, In i issues -> about "name" i \/ about "email" i \/ about "age" i)
  /\ ((exists i, In i issues /\ about "name" i)
      <-> exists l, Zod.parseString (Zod.sh_name o) ["name"] (getProp "name" props) = inl l)
  /\ ((exists i, In i issues /\ about "email" i)
      <-> exists l, Zod.parseString (Zod.sh_email o) ["email"] (getProp "email" props) = inl l)
  /\ ((exists i, In i issues /\ about "age" i)
      <-> exists l, Zod.parseNumber (Zod.sh_age o) ["age"] (getProp "age" props) = inl l).
Proof.
  intros H.
  set (rn := Zod.parseString (Zod.sh_name o) ["name"] (getProp "name" props)) in *.
  set (re := Zod.parseString (Zod.sh_email o) ["email"] (getProp "email" props)) in *.
  set (ra := Zod.parseNumber (Zod.sh_age o) ["age"] (getProp "age" props)) in *.
  assert (E : issues = (Zod.issuesOf rn ++ Zod.issuesOf re ++ Zod.issuesOf ra)%list).
  { unfold Zod.parse in H. fold rn re ra in H.
    destruct rn as [?|?], re as [?|?], ra as [?|?]; inversion H; reflexivity. }
  destruct (issuesOf_about "name" rn (parseString_issues _ _ _)) as [Fn In_].
  destruct (issuesOf_about "email" re (parseString_issues _ _ _)) as [Fe Ie].
  destruct (issuesOf_about "age" ra (parseNumber_issues _ _ _)) as [Fa Ia].
  rewrite Forall_forall in Fn, Fe, Fa.
  assert (Hin : forall i, In i issues <->
                          In i (Zod.issuesOf rn) \/ In i (Zod.issuesOf re)
                          \/ In i (Zod.issuesOf ra)).
  { intros i. rewrite E, !in_app_iff. tauto. }
  split; [|split; [|split]].
  - intros i Hi. apply Hin in Hi. destruct Hi as [Hi | [Hi | Hi]]; auto.
  - rewrite <- In_. split.
    + intros (i & Hi & Hab). apply Hin in Hi. destruct Hi as [Hi | [Hi | Hi]].
      * now exists i.
      * apply Fe in Hi. unfold about in *. congruence.
      * apply Fa in Hi. unfold about in *. congruence.
    + intros (i & Hi). exists i. split; [apply Hin; auto | now apply Fn].
  - rewrite <- Ie. split.
    + intros (i & Hi & Hab). apply Hin in Hi. destruct Hi as [Hi | [Hi | Hi]].
      * apply Fn in Hi. unfold about in *. congruence.
      * now exists i.
      * apply Fa in Hi. unfold about in *. congruence.
    + intros (i & Hi). exists i. split; [apply Hin; auto | now apply Fe].
  - rewrite <- Ia. split.
    + intros (i & Hi & Hab). apply Hin in Hi. destruct Hi as [Hi | [Hi | Hi]].
      * apply Fn in Hi. unfold about in *. congruence.
      * apply Fe in Hi. unfold about in *. congruence.
      * now exists i.
    + intros (i & Hi). exists i. split; [apply Hin; auto | now apply Fa].
Qed.

Lemma parse_reports_every_failing_property_witness :
  (forall i, In i badIssues -> about "name" i \/ about "email" i \/ about "age" i)
  /\ ((exists i, In i badIssues /\ about "name" i)
      <-> exists l, Zod.parseString (Zod.sh_name createUserSchema) ["name"]
                      (getProp "name" badPayload) = inl l)
  /\ ((exists i, In i badIssues /\ about "email" i)
      <-> exists l, Zod.parseString (Zod.sh_email createUserSchema) ["email"]
                      (getProp "email" badPayload) = inl l)
  /\ ((exists i, In i badIssues /\ about "age" i)
      <-> exists l, Zod.parseNumber (Zod.sh_age createUserSchema) ["age"]
                      (getProp "age" badPayload) = inl l).
Proof.
  apply (parse_reports_every_failing_property createUserSchema badPayload badIssues).
  reflexivity.
Defined.

(** ** The connection to the store *)

Lemma connectDB_connected (env : option string) (rejection : option jserror)
      (s : Database.state) :
  Database.isConnected s = true ->
  Database.connectDB env rejection s
  = (inr tt, Database.write Database.UsingExistingConnection s).
Proof. intros H. unfold Database.connectDB. now rewrite H. Qed.

(** X18. While the module is connected, [connectDB] can be called any
    number of times, with whatever environment: each call returns
    without an error, [mongoose.connect] is not called again, and each
    call writes the one line about the existing connection. *)
Theorem connectDB_reuses_the_connection
        (calls : list (option string * option jserror)) (s : Database.state) :
  Database.isConnected s = true ->
  let s' := Database.run (map (fun c => Database.Call (fst c) (snd c)) calls) s in
  Database.isConnected s' = true
  /\ Database.dialled s' = Database.dialled s
  /\ Database.written s'
     = (Database.written s
        ++ repeat Database.UsingExistingConnection (List.length calls))%list
  /\ forall env rejection, fst (Database.connectDB env rejection s') = inr tt.
Proof.
  revert s. induction calls as [|[env rej] calls IH]; intros s Hs; cbn [map fst snd].
  - cbn. rewrite app_nil_r. repeat split; auto.
    intros env rej. now rewrite connectDB_connected.
  - unfold Database.run. cbn [fold_left Database.after].
    rewrite connectDB_connected by exact Hs. cbn [snd].
    specialize (IH (Database.write Database.UsingExistingConnection s) Hs).
    cbv zeta in IH. unfold Database.run in IH.
    destruct IH as (Hc & Hd & Hw & Hr).
    split; [exact Hc|]. split; [exact Hd|]. split; [|exact Hr].
    rewrite Hw. cbn [Database.written Database.write List.length repeat].
    now rewrite <- app_assoc.
Qed.

Lemma connectDB_reuses_the_connection_witness :
  let s := snd (Database.connectDB None None Database.initial) in
  let s' := Database.run
              (map (fun c => Database.Call (fst c) (snd c))
                 [(None, None); (Some "mongodb://other", None)]) s in
  Database.isConnected s' = true
  /\ Database.dialled s' = Database.dialled s
  /\ Database.written s'
     = (Database.written s ++ repeat Database.UsingExistingConnection 2)%list
  /\ forall env rejection, fst (Database.connectDB env rejection s') = inr tt.
Proof.
  apply (connectDB_reuses_the_connection
           [(None, None); (Some "mongodb://other", None)]
           (snd (Database.connectDB None None Database.initial))).
  reflexivity.
Defined.

Lemma run_app (xs ys : list Database.step) (s : Database.state) :
  Database.run (xs ++ ys) s = Database.run ys (Database.run xs s).
Proof. unfold Database.run. apply fold_left_app. Qed.

Lemma after_connected (st : Database.step) (s : Database.state) :
  Database.isConnected (Database.after st s) = true
  <-> (exists env, st = Database.Call env None)
      \/ (Database.isConnected s = true /\ isCall st).
Proof.
  destruct st as [env [e|]| |e]; cbn [Database.after isCall].
  - unfold Database.connectDB. destruct (Database.isConnected s) eqn:Hs;
      cbn [snd Database.isConnected Database.write Database.dial]; rewrite ?Hs.
    + split; [intros _; right; auto | intros _; reflexivity].
    + split; [discriminate|]. intros [[env' E] | [E _]]; discriminate.
  - unfold Database.connectDB. destruct (Database.isConnected s) eqn:Hs;
      cbn [snd Database.isConnected Database.write Database.dial Database.setConnected];
      rewrite ?Hs.
    + split; [intros _; left; now exists env | intros _; reflexivity].
    + split; [intros _; left; now exists env | intros _; reflexivity].
  - cbn. split; [discriminate|]. intros [[env E] | [_ []]]. discriminate.
  - cbn. split; [discriminate|]. intros [[env E] | [_ []]]. discriminate.
Qed.

(** X19. Starting from the module as it is loaded, the flag
    [isConnected] is set exactly when some call of [connectDB] found
    [mongoose.connect] resolving and nothing but calls of [connectDB]
    came after it: a 'disconnected' or 'error' event clears the flag
    until the next connection that succeeds. *)
Theorem isConnected_after (steps : list Database.step) :
  Database.isConnected (Database.run steps Database.initial) = true
  <-> exists before env later,
        steps = (before ++ Database.Call env None :: later)%list
        /\ Forall isCall later.
Proof.
  induction steps as [|st steps IH] using rev_ind.
  - cbn. split; [discriminate|]. intros (before & env & later & E & _).
    destruct before; discriminate.
  - rewrite run_app. cbn [Database.run fold_left].
    rewrite after_connected. split.
    + intros [[env ->] | [Hc Hcall]].
      * exists steps, env, []. split; [reflexivity | constructor].
      * apply IH in Hc. destruct Hc as (before & env & later & -> & Hl).
        exists before, env, (later ++ [st])%list. split.
        -- now rewrite <- app_assoc.
        -- apply Forall_app. split; [exact Hl | now constructor].
    + intros (before & env & later & E & Hl).
      destruct later as [|x later] using rev_ind.
      * left. exists env. apply app_inj_tail in E. tauto.
      * clear IHlater. right.
        rewrite app_comm_cons, app_assoc in E. apply app_inj_tail in E.
        destruct E as [-> ->]. apply Forall_app in Hl. destruct Hl as [Hl Hx].
        split; [|now inversion Hx]. apply IH. now exists before, env, later.
Qed.

Lemma connectDB_not_connected (env : option string) (rejection : option jserror)
      (s : Database.state) :
  Database.isConnected s = false ->
  Database.connectDB env rejection s
  = match rejection with
    | None =>
        (inr tt,
         Database.write Database.ConnectedSuccessfully
           (Database.setConnected true (Database.dial (Database.mongoURI env) s)))
    | Some error =>
        (inl error,
         Database.write (Database.ConnectionURI (Database.isSet env))
           (Database.write (Database.ConnectionError error)
              (Database.dial (Database.mongoURI env) s)))
    end.
Proof. intros H. unfold Database.connectDB. now rewrite H. Qed.

(** X20. [connectDB] on a module that is not connected calls
    [mongoose.connect] once, with [MONGODB_URI] when it is set and not
    empty and with the local default otherwise.  When the call is
    rejected, the error thrown is the rejection itself, the flag stays
    clear, and the next [connectDB] dials again. *)
Theorem connectDB_dials_when_not_connected
        (env env' : option string) (rejection rejection' : option jserror)
        (s : Database.state) :
  Database.isConnected s = false ->
  let s1 := snd (Database.connectDB env rejection s) in
  Database.dialled s1 = (Database.dialled s ++ [Database.mongoURI env])%list
  /\ (Database.mongoURI env = "mongodb://localhost:27017/vineetkr-db"
      \/ env = Some (Database.mongoURI env))
  /\ (forall error, rejection = Some error ->
        fst (Database.connectDB env rejection s) = inl error
        /\ Database.isConnected s1 = false
        /\ Database.dialled (snd (Database.connectDB env' rejection' s1))
           = (Database.dialled s ++ [Database.mongoURI env; Database.mongoURI env'])%list).
Proof.
  intros Hs s1. subst s1. rewrite (connectDB_not_connected env rejection s Hs).
  split; [|split].
  - destruct rejection; reflexivity.
  - destruct env as [[|c u]|]; cbn; auto.
  - intros error ->. cbn [fst snd]. split; [reflexivity|]. split; [exact Hs|].
    rewrite connectDB_not_connected by exact Hs.
    destruct rejection'; cbn; now rewrite <- app_assoc.
Qed.

Lemma connectDB_dials_when_not_connected_witness :
  let s1 := snd (Database.connectDB (Some "") (Some (Mongoose.mkError "MongooseError" "no server"))
                   Database.initial) in
  Database.dialled s1 = (Database.dialled Database.initial ++ [Database.mongoURI (Some "")])%list
  /\ (Database.mongoURI (Some "") = "mongodb://localhost:27017/vineetkr-db"
      \/ Some "" = Some (Database.mongoURI (Some "")))
  /\ (forall error, Some (Mongoose.mkError "MongooseError" "no server") = Some error ->
        fst (Database.connectDB (Some "") (Some (Mongoose.mkError "MongooseError" "no server"))
               Database.initial) = inl error
        /\ Database.isConnected s1 = false
        /\ Database.dialled (snd (Database.connectDB None None s1))
           = (Database.dialled Database.initial
              ++ [Database.mongoURI (Some ""); Database.mongoURI None])%list).
Proof.
  apply (connectDB_dials_when_not_connected (Some "") None
           (Some (Mongoose.mkError "MongooseError" "no server")) None Database.initial).
  reflexivity.
Defined.



(** ** The allowed origins *)

Lemma splitOn_nonempty (sep : ascii) (l : list ascii) : Zod.splitOn sep l <> [].
Proof.
  destruct l as [|c l]; simpl; [discriminate|].
  destruct (Ascii.eqb c sep); [discriminate|].
  destruct (Zod.splitOn sep l); discriminate.
Qed.

Lemma concat_cons (sep x : string) (xs : list string) :
  xs <> [] -> String.concat sep (x :: xs) = (x ++ sep ++ String.concat sep xs)%string.
Proof. destruct xs; [congruence|reflexivity]. Qed.

Lemma concat_splitOn (sep : ascii) (l : list ascii) :
  String.concat (String sep "") (map string_of_list_ascii (Zod.splitOn sep l))
  = string_of_list_ascii l.
Proof.
  induction l as [|c l IH]; [reflexivity|]. simpl.
  pose proof (splitOn_nonempty sep l) as Hne.
  destruct (Ascii.eqb_spec c sep) as [->|_].
  - cbn [map]. rewrite concat_cons by (destruct (Zod.splitOn sep l); [congruence|discriminate]).
    rewrite IH. reflexivity.
  - destruct (Zod.splitOn sep l) as [|p ps]; [congruence|].
    cbn [map] in *. destruct ps as [|q ps].
    + cbn in *. now rewrite IH.
    + rewrite concat_cons by discriminate. rewrite concat_cons in IH by discriminate.
      rewrite <- IH. reflexivity.
Qed.

Lemma splitOn_no_separator (sep : ascii) (l : list ascii) :
  Forall (fun p => ~ In sep p) (Zod.splitOn sep l).
Proof.
  induction l as [|c l IH]; simpl; [repeat constructor; auto|].
  destruct (Ascii.eqb_spec c sep) as [->|Hne].
  - constructor; [intros []|exact IH].
  - destruct (Zod.splitOn sep l) as [|p ps]; [repeat constructor; simpl; intuition|].
    inversion IH; subst. constructor; [|assumption].
    simpl. intros [E|Hin]; [congruence | contradiction].
Qed.

(** X22. The origins that [cors] is given are ['*'] exactly when
    [ALLOWED_ORIGINS] is not set.  When it is set, even to the empty
    string, they are a list that is never empty, whose entries hold no
    comma and, joined by commas, are the value of the variable: nothing
    of the value is trimmed or left out. *)
Theorem corsOrigin_is_the_split_variable (env : option string) :
  match Server.corsOrigin env with
  | Server.AnyOrigin => env = None
  | Server.Origins allowed =>
      exists s,
        env = Some s
        /\ allowed <> []
        /\ String.concat "," allowed = s
        /\ forall o, In o allowed -> ~ In ","%char (list_ascii_of_string o)
  end.
Proof.
  destruct env as [s|]; cbn [Server.corsOrigin]; [|reflexivity].
  exists s. split; [reflexivity|]. unfold Server.split. split; [|split].
  - pose proof (splitOn_nonempty "," (list_ascii_of_string s)).
    destruct (Zod.splitOn "," (list_ascii_of_string s)); [congruence|discriminate].
  - rewrite concat_splitOn. apply string_of_list_ascii_of_string.
  - intros o Ho. apply in_map_iff in Ho. destruct Ho as (p & <- & Hp).
    rewrite list_ascii_of_string_of_list_ascii.
    pose proof (splitOn_no_separator "," (list_ascii_of_string s)) as Hf.
    rewrite Forall_forall in Hf. now apply Hf.
Qed.

Example corsOrigin_examples :
  Server.corsOrigin (Some "https://a.com, https://b.com")
  = Server.Origins ["https://a.com"; " https://b.com"]
  /\ Server.corsOrigin (Some "") = Server.Origins [""]
  /\ Server.corsOrigin None = Server.AnyOrigin.
Proof. repeat split. Qed.

(** ** Names that the model refuses *)

(** X25. A create payload that passes the schema, whose address is free
    and whose name is white space only is refused by the model after the
    look-up: the answer is 500 with the message of the validation error
    of the model, and nothing is stored. *)
Theorem createUser_blank_name_is_answered_500
        (ctx : context) (req : request) (w : world)
        (props : list (string * json)) (n p : string) (d : Zod.UserData) :
  req_body req = JObj props ->
  Zod.parse createUserSchema (req_body req) = inr d ->
  getProp "name" props = Some (JStr n) ->
  getProp "email" props = Some (JStr p) ->
  emailFree (JS.toLowerCase p) (users w) ->
  JS.trim n = "" ->
  fst (app POST_users ctx req w)
  = {| status := 500;
       body := failure "User validation failed: name: Path `name` is required." |}
  /\ users (snd (app POST_users ctx req w)) = users w
  /\ calls (snd (app POST_users ctx req w)) = (calls w ++ [CallFindOne; CallCreate])%list.
Proof.
  intros Hb Hp Hn He Hfree Hblank.
  rewrite Hb in Hp.
  destruct (create_data_valid props d Hp) as (n' & p' & Hdn & Hgn & Hdp & Hgp & Hmail & Hmin).
  assert (n' = n) by congruence. assert (p' = p) by congruence. subst n' p'.
  assert (Hf : find (User.matches (JS.toLowerCase p) None) (users (logged CallFindOne w))
               = None).
  { apply find_none_of. intros v Hv. unfold User.matches. rewrite andb_true_r.
    apply String.eqb_neq. now apply Hfree. }
  run. unfold errorHandler. rewrite Hb, Hp. cbn [User.f_id_ne User.f_email].
  rewrite Hdp, email_setter, Hf. unfold User.castData.
  cbn [Zod.d_name Zod.d_email Zod.d_age]. rewrite Hdn, Hdp. cbn [option_map].
  rewrite name_setter, email_setter, Hmin, Hblank.
  rewrite (checkRequired_nonempty _ "email")
    by (apply toLowerCase_nonempty; now apply isEmail_nonempty).
  cbn. rewrite <- app_assoc. repeat split.
Qed.

Lemma createUser_blank_name_is_answered_500_witness :
  fst (app POST_users ctx1
         (post (JObj [("name", JStr "  "); ("email", JStr "a@b.com")])) emptyWorld)
  = {| status := 500;
       body := failure "User validation failed: name: Path `name` is required." |}
  /\ users (snd (app POST_users ctx1
                   (post (JObj [("name", JStr "  "); ("email", JStr "a@b.com")]))
                   emptyWorld))
     = users emptyWorld
  /\ calls (snd (app POST_users ctx1
                   (post (JObj [("name", JStr "  "); ("email", JStr "a@b.com")]))
                   emptyWorld))
     = (calls emptyWorld ++ [CallFindOne; CallCreate])%list.
Proof.
  apply (createUser_blank_name_is_answered_500 ctx1
           (post (JObj [("name", JStr "  "); ("email", JStr "a@b.com")])) emptyWorld
           [("name", JStr "  "); ("email", JStr "a@b.com")] "  " "a@b.com"
           {| Zod.d_name := Some "  "; Zod.d_email := Some "a@b.com"; Zod.d_age := None |}).
  - reflexivity.
  - reflexivity.
  - reflexivity.
  - reflexivity.
  - intros v Hv. simpl in Hv. destruct Hv.
  - reflexivity.
Defined.

(** ** Witness of the lemma on absent identifiers *)

Lemma absent_id_is_answered_404_witness :
  app GET_users ctx2 (get (Some "0000000000000000000000ff")) worldWithJo
  = ({| status := 404; body := failure "User not found" |}, logged CallFindById worldWithJo)
  /\ app DELETE_users_id ctx2 (delete "0000000000000000000000ff") worldWithJo
     = ({| status := 404; body := failure "User not found" |},
        logged CallFindByIdAndDelete worldWithJo).
Proof.
  apply (absent_id_is_answered_404 ctx2 "0000000000000000000000ff" 255%N worldWithJo).
  - reflexivity.
  - reflexivity.
Defined.
